(** * Nadlogar: problem generation and rendering ([problems/models/meta.py])

    A shallow embedding of [nadlogar/problems/models/meta.py] together with
    the properties its specification states about it.

    The file is organised as follows.
    - [Py]: the few Python notions the module relies on: exceptions, results,
      [str] of primary keys.
    - [Template]: [_Template], that is [string.Template] with the delimiter
      [@], and the shape of valid templates.
    - [Models]: content types, [ProblemText] with [render], problem kinds
      and the instances of [Problem].
    - [Generation]: the seeded retry loop [Problem._generate_data] and the
      public operations [example_text] and [student_text].
    - [Store]: the Python objects and the rows touched by [clean], [save],
      [downcast] and [copy].
    - [Demo] and [DemoStore]: a small problem kind and a small database on
      which the statements are run.
    Definitions come first, the theorems follow, grouped as the definitions
    are. *)

From Stdlib Require Import String Ascii List Arith Lia.
From stdpp Require Import base option list gmap strings pretty.

Local Open Scope string_scope.

(* ===================================================================== *)
(** * Python preliminaries                                                *)
(* ===================================================================== *)

Module Py.

(** The exceptions that can leave the functions of [meta.py]. [KeyError] and
    [ValueError] are raised by [string.Template.substitute], [TypeError] by
    the regular expression engine when the template is [None]. *)
Inductive exn : Type :=
| KeyError (key : string)
| ValueError
| TypeError
| NotImplementedError
| GeneratedDataIncorrect
| ValidationError (msg : string)
| FieldError
| DoesNotExist.

(** The outcome of a call: a returned value or a raised exception. *)
Inductive result (A : Type) : Type :=
| Ok (a : A)
| Raise (e : exn).
Arguments Ok {A} a.
Arguments Raise {A} e.

Definition bind {A B} (r : result A) (k : A -> result B) : result B :=
  match r with
  | Ok a => k a
  | Raise e => Raise e
  end.

(** [str(x)] for a primary key: an integer, or [None] for an instance that
    has not been saved yet. *)
Definition str_pk (pk : option nat) : string :=
  match pk with
  | Some n => pretty n
  | None => "None"
  end.

End Py.
Export Py.

Declare Scope py_scope.
Delimit Scope py_scope with py.
Notation "x <- r ;; k" := (bind r (fun x => k))
  (at level 60, r at next level, right associativity) : py_scope.
Local Open Scope py_scope.

(* ===================================================================== *)
(** * Templates                                                           *)
(* ===================================================================== *)

Module Template.

(** [_Template.delimiter] *)
Definition delimiter : ascii := "@"%char.

Definition is_lower (c : ascii) : bool :=
  (nat_of_ascii "a" <=? nat_of_ascii c)%nat && (nat_of_ascii c <=? nat_of_ascii "z")%nat.
Definition is_upper (c : ascii) : bool :=
  (nat_of_ascii "A" <=? nat_of_ascii c)%nat && (nat_of_ascii c <=? nat_of_ascii "Z")%nat.
Definition is_digit (c : ascii) : bool :=
  (nat_of_ascii "0" <=? nat_of_ascii c)%nat && (nat_of_ascii c <=? nat_of_ascii "9")%nat.

(** [string.Template.idpattern] is the ASCII-only pattern of one character
    of [_a-z] followed by any number of characters of [_a-z0-9], compiled
    with [re.IGNORECASE]: an ASCII letter or underscore, then ASCII letters,
    digits and underscores. *)
Definition is_id_start (c : ascii) : bool :=
  Ascii.eqb c "_" || is_lower c || is_upper c.
Definition is_id_char (c : ascii) : bool :=
  is_id_start c || is_digit c.

(** The longest prefix of identifier characters (the greedy [*]). *)
Fixpoint id_run (s : string) : string :=
  match s with
  | String c s' => if is_id_char c then String c (id_run s') else ""
  | EmptyString => ""
  end.

(** The suffix of [s] after its first [n] characters. *)
Fixpoint drop_string (n : nat) (s : string) : string :=
  match n, s with
  | S k, String _ s' => drop_string k s'
  | _, _ => s
  end.

(** The group of [string.Template.pattern] that matched after a delimiter:
<<
      @(?: (?P<escaped>@) | (?P<named>id) | {(?P<braced>id)} | (?P<invalid>) )
>>
    The alternatives are tried in this order. *)
Inductive group : Type :=
| escaped
| named (name : string)
| braced (name : string)
| invalid.

(** [match_after s] is the group matched when the text following a delimiter
    is [s]. *)
Definition match_after (s : string) : group :=
  match s with
  | String c s' =>
      if Ascii.eqb c delimiter then escaped
      else if is_id_start c then named (id_run s)
      else if Ascii.eqb c "{" then
        match s' with
        | String c' _ =>
            if is_id_start c' then
              match drop_string (String.length (id_run s')) s' with
              | String "}" _ => braced (id_run s')
              | _ => invalid
              end
            else invalid
        | EmptyString => invalid
        end
      else invalid
  | EmptyString => invalid
  end.

(** The number of characters the match covers after the delimiter. *)
Definition span (g : group) : nat :=
  match g with
  | escaped => 1
  | named name => String.length name
  | braced name => String.length name + 2
  | invalid => 0
  end.

Section Substitute.
(** The values of a datum are arbitrary Python objects; all the renderer
    does with them is call [str]. *)
Context {V : Type} (py_str : V -> string).

(** The callback [convert] of [string.Template.substitute]. *)
Definition convert (mapping : gmap string V) (g : group) : result string :=
  match g with
  | named name | braced name =>
      match mapping !! name with
      | Some v => Ok (py_str v)
      | None => Raise (KeyError name)
      end
  | escaped => Ok (String delimiter "")
  | invalid => Raise ValueError
  end.

(** [pattern.sub(convert, template)]: the template is scanned from left to
    right; [skip] counts the characters of the current match that are still
    to be passed over. Matches are replaced in order, so the first callback
    that raises decides the exception. *)
Fixpoint sub (mapping : gmap string V) (skip : nat) (s : string) : result string :=
  match s with
  | EmptyString => Ok ""
  | String c s' =>
      match skip with
      | S k => sub mapping k s'
      | O =>
          if Ascii.eqb c delimiter then
            let g := match_after s' in
            r <- convert mapping g ;;
            rest <- sub mapping (span g) s' ;;
            Ok (r ++ rest)
          else
            rest <- sub mapping 0 s' ;;
            Ok (String c rest)
      end
  end.

(** [_Template(template).substitute] applied to the keywords of [mapping].
    A template that is [None] makes [pattern.sub] raise [TypeError]. *)
Definition substitute (template : option string) (mapping : gmap string V)
  : result string :=
  match template with
  | Some s => sub mapping 0 s
  | None => Raise TypeError
  end.
End Substitute.

(** ** The shape of valid templates

    A valid template is a sequence of literal text without delimiter,
    escapes [@@], and placeholders [@name] and [@{name}]. The theorems about
    rendering are stated over templates written this way. *)
Inductive segment : Type :=
| Lit (s : string)
| Esc
| Var (name : string)
| BracedVar (name : string).

Definition show_segment (seg : segment) : string :=
  match seg with
  | Lit s => s
  | Esc => "@@"
  | Var name => String delimiter name
  | BracedVar name => String delimiter (String "{" (name ++ "}"))
  end.

(** The template string that a sequence of segments denotes. *)
Fixpoint show (segs : list segment) : string :=
  match segs with
  | [] => ""
  | seg :: segs' => show_segment seg ++ show segs'
  end.

Fixpoint all_chars (p : ascii -> bool) (s : string) : bool :=
  match s with
  | String c s' => p c && all_chars p s'
  | EmptyString => true
  end.

Definition no_delimiter (s : string) : bool :=
  all_chars (fun c => negb (Ascii.eqb c delimiter)) s.

(** A string that [idpattern] matches entirely. *)
Definition identifier (name : string) : bool :=
  match name with
  | String c s' => is_id_start c && all_chars is_id_char s'
  | EmptyString => false
  end.

Definition starts_with_id_char (s : string) : bool :=
  match s with
  | String c _ => is_id_char c
  | EmptyString => false
  end.

(** The segments read back as written: literal text holds no delimiter,
    names are identifiers, and the text after an unbraced placeholder does
    not continue its name. *)
Fixpoint well_formed (segs : list segment) : bool :=
  match segs with
  | [] => true
  | Lit s :: segs' => no_delimiter s && well_formed segs'
  | Esc :: segs' => well_formed segs'
  | Var name :: segs' =>
      identifier name && negb (starts_with_id_char (show segs')) && well_formed segs'
  | BracedVar name :: segs' => identifier name && well_formed segs'
  end.

(** The names a template asks for, in order. *)
Fixpoint placeholders (segs : list segment) : list string :=
  match segs with
  | [] => []
  | (Var name | BracedVar name) :: segs' => name :: placeholders segs'
  | _ :: segs' => placeholders segs'
  end.

Section Fill.
Context {V : Type} (py_str : V -> string).

(** What the specification says a segment turns into: literal text stays,
    an escape is one delimiter, a placeholder is [str] of its value. *)
Definition fill_segment (mapping : gmap string V) (seg : segment) : result string :=
  match seg with
  | Lit s => Ok s
  | Esc => Ok (String delimiter "")
  | Var name | BracedVar name =>
      match mapping !! name with
      | Some v => Ok (py_str v)
      | None => Raise (KeyError name)
      end
  end.

Fixpoint fill (mapping : gmap string V) (segs : list segment) : result string :=
  match segs with
  | [] => Ok ""
  | seg :: segs' =>
      r <- fill_segment mapping seg ;;
      rest <- fill mapping segs' ;;
      Ok (r ++ rest)
  end.

(** The same when every name has a value: the pieces, concatenated. *)
Definition instantiate_segment (mapping : gmap string V) (seg : segment) : string :=
  match seg with
  | Lit s => s
  | Esc => String delimiter ""
  | Var name | BracedVar name => from_option py_str "" (mapping !! name)
  end.

Fixpoint instantiate (mapping : gmap string V) (segs : list segment) : string :=
  match segs with
  | [] => ""
  | seg :: segs' => instantiate_segment mapping seg ++ instantiate mapping segs'
  end.
(** [first_missing mapping name s]: the template [s] begins with valid
    text that [mapping] fills, and goes on with a placeholder for [name],
    written [@name] or [@{name}], for which [mapping] holds no value. *)
Definition first_missing (mapping : gmap string V) (name s : string) : Prop :=
  exists segs out rest,
    well_formed segs = true /\ fill mapping segs = Ok out
    /\ identifier name = true /\ mapping !! name = None
    /\ (s = show segs ++ String delimiter (name ++ rest)
        /\ starts_with_id_char rest = false
        \/ s = show segs ++ String delimiter (String "{" (name ++ String "}" rest))).

End Fill.

End Template.

(* ===================================================================== *)
(** * Models                                                              *)
(* ===================================================================== *)

Module Models.
Import Template.

(** The model classes: [Problem] itself and its subclasses, one per problem
    kind, identified by class name. *)
Inductive model : Type :=
| ProblemModel
| SubclassModel (name : string).

#[export] Instance model_eq_dec : EqDecision model.
Proof. solve_decision. Defined.

(** [issubclass(Problem, m)] for the class [m] of a problem instance: only
    [Problem] itself is a superclass of [Problem]. *)
Definition issubclass_Problem (m : model) : bool :=
  match m with
  | ProblemModel => true
  | SubclassModel _ => false
  end.

(** Django's content types: one database entry per model class. *)
Record ContentType : Type := { model_class : model }.

#[export] Instance ContentType_eq_dec : EqDecision ContentType.
Proof. solve_decision. Defined.

(** [ContentType.objects.get_for_model] *)
Definition get_for_model (m : model) : ContentType := {| model_class := m |}.

(** [class ProblemText]. [text_id] is the primary key ([None] for an object
    that was built in memory and never saved); a template built by
    [default_text] may carry [None] for its two strings. *)
Record ProblemText : Type := {
  text_id : option nat;
  text_content_type : ContentType;
  instruction : option string;
  solution : option string
}.

#[export] Instance ProblemText_eq_dec : EqDecision ProblemText.
Proof. solve_decision. Defined.

(** One element of the list returned by [ProblemText.render], the dictionary
    with the keys [instruction] and [solution]. *)
Record rendered : Type := {
  rendered_instruction : string;
  rendered_solution : string
}.

Section Render.
Context {V : Type} (py_str : V -> string).

(** The body of the loop of [ProblemText.render]. *)
Definition render_datum (self : ProblemText) (datum : gmap string V)
  : result rendered :=
  i <- substitute py_str (instruction self) datum ;;
  s <- substitute py_str (solution self) datum ;;
  Ok {| rendered_instruction := i; rendered_solution := s |}.

(** [ProblemText.render] *)
Fixpoint render (self : ProblemText) (data : list (gmap string V))
  : result (list rendered) :=
  match data with
  | [] => Ok []
  | datum :: data' =>
      r <- render_datum self datum ;;
      rs <- render self data' ;;
      Ok (r :: rs)
  end.
End Render.

(** An instance of [Problem] or of one of its subclasses. [cls] is
    [type(self)], [parameters] stands for the fields of the child table and
    [adding] for [_state.adding]. The attributes [pk] and [id] of the source
    are one field here. *)
Record Problem (P : Type) : Type := {
  cls : model;
  id : option nat;
  document : nat;
  content_type : ContentType;
  text : option ProblemText;
  number_of_subproblems : nat;
  parameters : P;
  adding : bool
}.
Arguments cls {P} p.
Arguments id {P} p.
Arguments document {P} p.
Arguments content_type {P} p.
Arguments text {P} p.
Arguments number_of_subproblems {P} p.
Arguments parameters {P} p.
Arguments adding {P} p.

(** What a problem kind contributes: the method [generate], which reads the
    instance and the random source and either returns a datum or raises, and
    the two class attributes with the default texts. *)
Record kind (R V P : Type) : Type := {
  generate : Problem P -> R -> result (gmap string V) * R;
  default_instruction : option string;
  default_solution : option string
}.
Arguments generate {R V P} k.
Arguments default_instruction {R V P} k.
Arguments default_solution {R V P} k.

(** The class [Problem] itself: [generate] raises [NotImplementedError] and
    both default texts are [None]. *)
Definition Problem_kind {R V P} : kind R V P := {|
  generate := fun _ r => (Raise NotImplementedError, r);
  default_instruction := None;
  default_solution := None
|}.

(** Attribute lookup through the class of an instance. *)
Definition kind_of {R V P} (subclasses : string -> kind R V P) (m : model)
  : kind R V P :=
  match m with
  | ProblemModel => Problem_kind
  | SubclassModel name => subclasses name
  end.

(** A student, of which only the primary key is read. *)
Record Student : Type := { student_id : option nat }.

#[export] Instance model_countable : Countable model.
Proof.
  refine (inj_countable'
            (fun m => match m with ProblemModel => None | SubclassModel name => Some name end)
            (fun o => match o with None => ProblemModel | Some name => SubclassModel name end)
            _).
  now intros [|name].
Defined.

#[export] Instance ContentType_countable : Countable ContentType.
Proof.
  refine (inj_countable' model_class get_for_model _). now intros [m].
Defined.



End Models.

(* ===================================================================== *)
(** * Generation                                                          *)
(* ===================================================================== *)

Module Generation.
Import Template Models.

Section Protocol.
(** [R] is the state of the module-level generator of [random] and
    [seed_rng a] the state that [random.seed(a)] installs for a string
    [a]. *)
Context {R V P : Type}.
Context (seed_rng : string -> R).
Context (py_str : V -> string).
Context (subclasses : string -> kind R V P).

(** What a run does to the random source, in order: calls of
    [random.seed] and calls of [self.generate] with the state before, the
    outcome and the state after. *)
Inductive event : Type :=
| Seeded (a : string)
| Generated (before : R) (outcome : result (gmap string V)) (after : R).

Record world : Type := { rng : R; trace : list event }.

(** [random.seed(a)] *)
Definition random_seed (a : string) (w : world) : world :=
  {| rng := seed_rng a; trace := trace w ++ [Seeded a] |}.

(** [self.generate()] *)
Definition call_generate (self : Problem P) (w : world)
  : result (gmap string V) * world :=
  let (outcome, r) := generate (kind_of subclasses (cls self)) self (rng w) in
  (outcome, {| rng := r; trace := trace w ++ [Generated (rng w) outcome r] |}).

(** The loop [while True] of [_generate_data]; [None] when it is still
    running after [fuel] iterations. *)
Fixpoint attempts (fuel : nat) (self : Problem P) (w : world)
  : option (result (gmap string V) * world) :=
  match fuel with
  | O => None
  | S fuel' =>
      match call_generate self w with
      | (Ok datum, w') => Some (Ok datum, w')
      | (Raise GeneratedDataIncorrect, w') => attempts fuel' self w'
      | (Raise e, w') => Some (Raise e, w')
      end
  end.

(** The string built by the f-string of [random.seed]: index, dash, seed,
    where the seed is a string or [None]. *)
Definition str_seed (seed : option string) : string :=
  match seed with
  | Some s => s
  | None => "None"
  end.
Definition slot_seed (i : nat) (seed : option string) : string :=
  pretty i ++ "-" ++ str_seed seed.

(** The loop [for i in range(...)] of [_generate_data] over the indices
    still to do. *)
Fixpoint generate_slots (fuel : nat) (self : Problem P) (seed : option string)
    (indices : list nat) (w : world)
  : option (result (list (gmap string V)) * world) :=
  match indices with
  | [] => Some (Ok [], w)
  | i :: indices' =>
      match attempts fuel self (random_seed (slot_seed i seed) w) with
      | None => None
      | Some (Raise e, w') => Some (Raise e, w')
      | Some (Ok datum, w') =>
          match generate_slots fuel self seed indices' w' with
          | Some (Ok data, w'') => Some (Ok (datum :: data), w'')
          | other => other
          end
      end
  end.

(** [Problem._generate_data] *)
Definition _generate_data (fuel : nat) (self : Problem P) (seed : option string)
    (w : world) : option (result (list (gmap string V)) * world) :=
  generate_slots fuel self seed (seq 0 (number_of_subproblems self)) w.

(** [Problem.default_text] *)
Definition default_text (m : model) : ProblemText := {|
  text_id := None;
  text_content_type := get_for_model m;
  instruction := default_instruction (kind_of subclasses m);
  solution := default_solution (kind_of subclasses m)
|}.

(** [Problem._render_text] *)
Definition _render_text (self : Problem P) (data : list (gmap string V))
  : result (list rendered) :=
  match text self with
  | None => render py_str (default_text (cls self)) data
  | Some t => render py_str t data
  end.

(** [Problem.example_data] *)
Definition example_data (fuel : nat) (self : Problem P) (w : world)
  : option (result (list (gmap string V)) * world) :=
  _generate_data fuel self None w.

(** Rendering what a generation returned, if it returned. *)
Definition then_render (self : Problem P)
    (g : option (result (list (gmap string V)) * world))
  : option (result (list rendered) * world) :=
  match g with
  | Some (Ok data, w') => Some (_render_text self data, w')
  | Some (Raise e, w') => Some (Raise e, w')
  | None => None
  end.

(** [Problem.example_text] *)
Definition example_text (fuel : nat) (self : Problem P) (w : world)
  : option (result (list rendered) * world) :=
  then_render self (example_data fuel self w).

(** [Problem.student_text] *)
Definition student_text (fuel : nat) (self : Problem P) (student : Student)
    (w : world) : option (result (list rendered) * world) :=
  let seed := str_pk (id self) ++ "-" ++ str_pk (student_id student) in
  then_render self (_generate_data fuel self (Some seed) w).

(** What a caller can observe of a run once the trace is put aside: the
    result and the state the random source is left in. *)
Definition observable {A} (x : option (result A * world)) : option (result A * R) :=
  match x with
  | Some (res, w) => Some (res, rng w)
  | None => None
  end.

(** ** Shapes used to state what a run does

    [rejects_then_accepts self k r datum]: started in state [r], the
    generator of [self] raises [GeneratedDataIncorrect] on its first [k]
    draws and returns [datum] on the next one. *)
Fixpoint rejects_then_accepts (self : Problem P) (k : nat) (r : R)
    (datum : gmap string V) : Prop :=
  let (outcome, r') := generate (kind_of subclasses (cls self)) self r in
  match k with
  | O => outcome = Ok datum
  | S k' => outcome = Raise GeneratedDataIncorrect /\ rejects_then_accepts self k' r' datum
  end.

(** The calls of [generate] of one subproblem: the first starts in state
    [r], every later one starts where the one before it stopped and follows
    a [GeneratedDataIncorrect], and the last one ends with [final], which
    is not [GeneratedDataIncorrect]. *)
Fixpoint retry_chain (self : Problem P) (r : R) (evs : list event)
    (final : result (gmap string V)) : Prop :=
  match evs with
  | Generated before outcome after :: evs' =>
      before = r
      /\ generate (kind_of subclasses (cls self)) self before = (outcome, after)
      /\ match evs' with
         | [] => outcome = final /\ final <> Raise GeneratedDataIncorrect
         | _ :: _ => outcome = Raise GeneratedDataIncorrect /\ retry_chain self after evs' final
         end
  | _ => False
  end.

(** The strings [random.seed] was called with, in order. *)
Fixpoint seedings (evs : list event) : list string :=
  match evs with
  | [] => []
  | Seeded a :: evs' => a :: seedings evs'
  | Generated _ _ _ :: evs' => seedings evs'
  end.

(** The events of a whole run over [indices] and its result: for every
    index one call of [random.seed] with the string of that index followed
    by the chain of that subproblem; the run stops at the first chain that
    ends with an exception. *)
Fixpoint slots_trace (self : Problem P) (seed : option string)
    (indices : list nat) (evs : list event)
    (res : result (list (gmap string V))) : Prop :=
  match indices with
  | [] => evs = [] /\ res = Ok []
  | i :: indices' =>
      exists chain final evs',
        evs = Seeded (slot_seed i seed) :: chain ++ evs'
        /\ retry_chain self (seed_rng (slot_seed i seed)) chain final
        /\ match final with
           | Ok datum =>
               exists res', slots_trace self seed indices' evs' res'
                            /\ res = (data <- res' ;; Ok (datum :: data))
           | Raise e => evs' = [] /\ res = Raise e
           end
  end.
End Protocol.

Arguments Seeded {R V} a.
Arguments Generated {R V} before outcome after.
Arguments world : clear implicits.
Arguments event : clear implicits.

(** [Problem.validate] *)
Definition validate (condition : bool) : result unit :=
  if negb condition then Raise GeneratedDataIncorrect else Ok tt.

End Generation.

(* ===================================================================== *)
(** * A small problem kind                                                *)
(* ===================================================================== *)

(** A concrete random source and a concrete kind, on which the statements
    below are run. The state of the source is a number, seeding installs the
    sum of the character codes of the seed, and every draw advances the state
    by one. *)
Module Demo.
Import Template Models Generation.

Fixpoint code_sum (a : string) : nat :=
  match a with
  | String c a' => nat_of_ascii c + code_sum a'
  | EmptyString => 0
  end.

Definition seed_rng (a : string) : nat := code_sum a.

(** The kind [Dice] draws a number and rejects it unless it is a multiple of
    four. *)
Definition Dice : kind nat nat unit := {|
  generate := fun _ r =>
    if (r mod 4 =? 0)%nat then (Ok {["x" := r]}, S r)
    else (Raise GeneratedDataIncorrect, S r);
  default_instruction := Some "Value: @x";
  default_solution := Some "@x is the value"
|}.

(** The kind [Bare] accepts every draw and has no default texts. *)
Definition Bare : kind nat nat unit := {|
  generate := fun _ r => (Ok {["x" := r]}, S r);
  default_instruction := None;
  default_solution := None
|}.

Definition subclasses (name : string) : kind nat nat unit :=
  if String.eqb name "Dice" then Dice else Bare.

Definition py_str (n : nat) : string := pretty n.

Definition dice_problem : Problem unit := {|
  cls := SubclassModel "Dice";
  id := Some 1;
  document := 1;
  content_type := get_for_model (SubclassModel "Dice");
  text := None;
  number_of_subproblems := 2;
  parameters := tt;
  adding := false
|}.

Definition bare_problem : Problem unit := {|
  cls := SubclassModel "Bare";
  id := Some 2;
  document := 1;
  content_type := get_for_model (SubclassModel "Bare");
  text := None;
  number_of_subproblems := 0;
  parameters := tt;
  adding := false
|}.

Definition student : Student := {| student_id := Some 1 |}.

(** What [dice_problem] generates for [student]: the seeds are [0-1-1] and
    [1-1-1], with character codes summing to 236 and 237. The first
    subproblem accepts its first draw, the second its fourth. *)
Definition dice_rejections (i : nat) : nat :=
  match i with O => 0 | S _ => 3 end.
Definition dice_data (i : nat) : gmap string nat :=
  match i with O => {["x" := 236]} | S _ => {["x" := 240]} end.
Definition dice_texts (i : nat) : rendered :=
  match i with
  | O => {| rendered_instruction := "Value: 236"; rendered_solution := "236 is the value" |}
  | S _ => {| rendered_instruction := "Value: 240"; rendered_solution := "240 is the value" |}
  end.

(** What the preview of [dice_problem] shows: the seeds are [0-None] and
    [1-None], with sums 493 and 494; both subproblems end on 496. *)
Definition dice_preview : list rendered :=
  [ {| rendered_instruction := "Value: 496"; rendered_solution := "496 is the value" |};
    {| rendered_instruction := "Value: 496"; rendered_solution := "496 is the value" |} ].

(** A mapping with the keys [x], [x_1] and [Name], whose values are
    strings. *)
Definition sample : gmap string string :=
  {["x" := "1"; "x_1" := "one"; "Name" := "Ana"]}.

Definition idle : world nat nat := {| rng := 0; trace := [] |}.
Definition used : world nat nat := {| rng := 77; trace := [Seeded "earlier"] |}.

(** Where generating the data of [dice_problem] for [student] leaves the
    random source, and what it did on the way. *)
Definition dice_run : world nat nat := {|
  rng := 241;
  trace := [ Seeded "0-1-1";
             Generated 236 (Ok (dice_data 0)) 237;
             Seeded "1-1-1";
             Generated 237 (Raise GeneratedDataIncorrect) 238;
             Generated 238 (Raise GeneratedDataIncorrect) 239;
             Generated 239 (Raise GeneratedDataIncorrect) 240;
             Generated 240 (Ok (dice_data 1)) 241 ]
|}.

(** The kind [Stuck] validates a condition that never holds. *)
Definition Stuck : kind nat nat unit := {|
  generate := fun _ r => (_ <- validate false ;; Ok {["x" := r]}, S r);
  default_instruction := Some "Value: @x";
  default_solution := Some "@x is the value"
|}.

(** The classes of a project that has the kind [Stuck] as well. *)
Definition subclasses_with_stuck (name : string) : kind nat nat unit :=
  if String.eqb name "Stuck" then Stuck else subclasses name.

Definition stuck_problem : Problem unit := {|
  cls := SubclassModel "Stuck";
  id := Some 3;
  document := 1;
  content_type := get_for_model (SubclassModel "Stuck");
  text := None;
  number_of_subproblems := 1;
  parameters := tt;
  adding := false
|}.

End Demo.

(* ===================================================================== *)
(** * Instances and rows                                                  *)
(* ===================================================================== *)

Module Store.
Import Models.

Section State.
Context {P : Type}.

(** A row of the parent table [problems_problem]. *)
Record row : Type := {
  row_document : nat;
  row_content_type : ContentType;
  row_text : option ProblemText;
  row_number_of_subproblems : nat
}.

(** The parent table, the child tables (keyed by the name of the subclass
    and [problem_ptr_id]) and the sequence that hands out primary keys. *)
Record database : Type := {
  problems : gmap nat row;
  children : gmap (string * nat) P;
  sequence : nat
}.

(** The Python objects, by address, and the database. Two names for one
    object are two uses of one address. *)
Record state : Type := {
  heap : gmap nat (Problem P);
  db : database
}.

(** A method call: it gets stuck ([None]) only on an address that holds no
    object, and otherwise returns or raises in a new state. *)
Definition M (A : Type) : Type := state -> option (result A * state).

Definition ret {A} (a : A) : M A := fun st => Some (Ok a, st).
Definition raise {A} (e : exn) : M A := fun st => Some (Raise e, st).
Definition bindM {A B} (m : M A) (k : A -> M B) : M B :=
  fun st =>
    match m st with
    | Some (Ok a, st') => k a st'
    | Some (Raise e, st') => Some (Raise e, st')
    | None => None
    end.

Definition load (l : nat) : M (Problem P) :=
  fun st =>
    match heap st !! l with
    | Some o => Some (Ok o, st)
    | None => None
    end.
Definition store (l : nat) (o : Problem P) : M unit :=
  fun st => Some (Ok tt, {| heap := <[l := o]> (heap st); db := db st |}).
Definition alloc (o : Problem P) : M nat :=
  fun st =>
    let l := fresh (dom (heap st)) in
    Some (Ok l, {| heap := <[l := o]> (heap st); db := db st |}).
Definition get_db : M database := fun st => Some (Ok (db st), st).
Definition put_db (d : database) : M unit :=
  fun st => Some (Ok tt, {| heap := heap st; db := d |}).
End State.
Arguments row : clear implicits.
Arguments database : clear implicits.
Arguments state : clear implicits.
Arguments M : clear implicits.

Declare Scope store_scope.
Delimit Scope store_scope with store.
Notation "x <- m ;; k" := (bindM m (fun x => k))
  (at level 60, m at next level, right associativity) : store_scope.

Section Methods.
Context {P : Type}.
Local Open Scope store_scope.

(** Attribute assignments. *)
Definition set_content_type (c : ContentType) (o : Problem P) : Problem P :=
  {| cls := cls o; id := id o; document := document o; content_type := c;
     text := text o; number_of_subproblems := number_of_subproblems o;
     parameters := parameters o; adding := adding o |}.
Definition set_document (d : nat) (o : Problem P) : Problem P :=
  {| cls := cls o; id := id o; document := d; content_type := content_type o;
     text := text o; number_of_subproblems := number_of_subproblems o;
     parameters := parameters o; adding := adding o |}.
Definition set_id (i : option nat) (o : Problem P) : Problem P :=
  {| cls := cls o; id := i; document := document o; content_type := content_type o;
     text := text o; number_of_subproblems := number_of_subproblems o;
     parameters := parameters o; adding := adding o |}.
Definition set_adding (b : bool) (o : Problem P) : Problem P :=
  {| cls := cls o; id := id o; document := document o; content_type := content_type o;
     text := text o; number_of_subproblems := number_of_subproblems o;
     parameters := parameters o; adding := b |}.

(** [Problem.clean] *)
Definition clean (l : nat) : M P unit :=
  self <- load l ;;
  if issubclass_Problem (cls self) then
    raise (ValidationError "Problems must have a non-trivial generator")
  else
    _ <- store l (set_content_type (get_for_model (cls self)) self) ;;
    self <- load l ;;
    match text self with
    | Some t =>
        if decide (content_type self = text_content_type t) then ret tt
        else raise (ValidationError "Generators of the problem and its text must match")
    | None => ret tt
    end.

(** The columns an instance writes to the parent table. *)
Definition row_of (o : Problem P) : row := {|
  row_document := document o;
  row_content_type := content_type o;
  row_text := text o;
  row_number_of_subproblems := number_of_subproblems o
|}.

(** Django's [Model.save] for an instance of [Problem] or of a subclass,
    under multi-table inheritance: without a primary key the rows are
    inserted under the next key of the sequence, which the instance then
    carries; with a primary key the rows under that key are written, and
    the next key to be handed out is past it. An instance of a subclass
    writes a row of its child table as well. What Django checks before it
    writes (it refuses an instance whose text has no key yet) is not part of
    this model. *)
Definition Model_save (l : nat) : M P unit :=
  self <- load l ;;
  d <- get_db ;;
  let i := match id self with Some i => i | None => sequence d end in
  _ <- put_db {|
    problems := <[i := row_of self]> (problems d);
    children :=
      match cls self with
      | SubclassModel name => <[(name, i) := parameters self]> (children d)
      | ProblemModel => children d
      end;
    sequence := match id self with
                | Some i => Nat.max (sequence d) (S i)
                | None => S (sequence d)
                end
  |} ;;
  store l (set_adding false (set_id (Some i) self)).

(** [Problem.save] *)
Definition save (l : nat) : M P unit :=
  self <- load l ;;
  _ <- store l (set_content_type (get_for_model (cls self)) self) ;;
  Model_save l.

(** [content_type.get_object_for_this_type(problem_ptr_id=...)]: a new
    instance of the class of the content type, read from the child table
    joined with the parent table. The class [Problem] has no field
    [problem_ptr]. *)
Definition get_object_for_this_type (c : ContentType) (problem_ptr_id : option nat)
  : M P nat :=
  match model_class c, problem_ptr_id with
  | ProblemModel, _ => raise FieldError
  | SubclassModel name, None => raise DoesNotExist
  | SubclassModel name, Some i =>
      d <- get_db ;;
      match problems d !! i, children d !! (name, i) with
      | Some r, Some p =>
          alloc {| cls := SubclassModel name; id := Some i;
                   document := row_document r;
                   content_type := row_content_type r;
                   text := row_text r;
                   number_of_subproblems := row_number_of_subproblems r;
                   parameters := p; adding := false |}
      | _, _ => raise DoesNotExist
      end
  end.

(** [Problem.downcast] *)
Definition downcast (l : nat) : M P nat :=
  self <- load l ;;
  let content_type := content_type self in
  if decide (model_class content_type = cls self) then ret l
  else get_object_for_this_type content_type (id self).

(** [Problem.copy]. The assignments of [None] to [pk] and to [id] are the
    one assignment to [id] here. *)
Definition copy (l : nat) (document : nat) : M P nat :=
  l' <- downcast l ;;
  self <- load l' ;;
  _ <- store l' (set_document document self) ;;
  self <- load l' ;;
  _ <- store l' (set_id None self) ;;
  self <- load l' ;;
  _ <- store l' (set_adding true self) ;;
  _ <- save l' ;;
  ret l'.

(** ** Shapes used to state what [copy] does

    [persisted d self i]: [self] is the instance of the saved problem [i],
    as [Problem.objects.get] or the manager of a subclass returns it: its
    columns are those of row [i], and the child table named by the content
    type holds a row for [i], which is the one [self] carries when [self] is
    already an instance of that class. *)
Definition persisted (d : database P) (self : Problem P) (i : nat) : Prop :=
  id self = Some i
  /\ problems d !! i = Some (row_of self)
  /\ match model_class (content_type self) with
     | SubclassModel name =>
         is_Some (children d !! (name, i))
         /\ (cls self = SubclassModel name ->
             children d !! (name, i) = Some (parameters self))
     | ProblemModel => cls self = ProblemModel
     end.

(** The instance that [copy] leaves behind for a downcast instance [o]
    once it is saved under the key [j] in the document [target]. *)
Definition duplicate_of (o : Problem P) (target j : nat) : Problem P :=
  {| cls := cls o; id := Some j; document := target;
     content_type := get_for_model (cls o); text := text o;
     number_of_subproblems := number_of_subproblems o;
     parameters := parameters o; adding := false |}.

(** The database after an insert of [o] under the next key of the
    sequence. *)
Definition inserted (d : database P) (o : Problem P) : database P :=
  {| problems := <[sequence d := row_of o]> (problems d);
     children := match cls o with
                 | SubclassModel name => <[(name, sequence d) := parameters o]> (children d)
                 | ProblemModel => children d
                 end;
     sequence := S (sequence d) |}.

(** The sequence is ahead of every key in use. *)
Definition sequence_ahead (d : database P) : Prop :=
  (forall k, is_Some (problems d !! k) -> (k < sequence d)%nat)
  /\ (forall name k, is_Some (children d !! (name, k)) -> (k < sequence d)%nat).
End Methods.

End Store.

(** A database with the two problems of [Demo], and the Python objects a
    view holds: [dice_problem] loaded through its own class at address 0 and
    through the parent class [Problem] at address 1. *)
Module DemoStore.
Import Models Store Demo.

Definition parent_handle : Problem unit := {|
  cls := ProblemModel;
  id := Some 1;
  document := 1;
  content_type := get_for_model (SubclassModel "Dice");
  text := None;
  number_of_subproblems := 2;
  parameters := tt;
  adding := false
|}.

Definition unsaved_base : Problem unit := {|
  cls := ProblemModel;
  id := None;
  document := 1;
  content_type := get_for_model (SubclassModel "Dice");
  text := None;
  number_of_subproblems := 1;
  parameters := tt;
  adding := true
|}.

Definition tables : database unit := {|
  problems := {[ 1 := row_of dice_problem; 2 := row_of bare_problem ]};
  children := {[ ("Dice", 1) := tt; ("Bare", 2) := tt ]};
  sequence := 3
|}.

Definition session : state unit := {|
  heap := {[ 0 := dice_problem; 1 := parent_handle; 2 := unsaved_base ]};
  db := tables
|}.

End DemoStore.

(* ===================================================================== *)
(** * Properties of templates                                             *)
(* ===================================================================== *)

Import Template Models Generation Store.

(** ** Strings *)

Lemma append_empty_l (s : string) : "" ++ s = s.
Proof. reflexivity. Qed.

Lemma append_cons c (a b : string) : String c a ++ b = String c (a ++ b).
Proof. reflexivity. Qed.

Lemma append_empty_r (s : string) : s ++ "" = s.
Proof.
  induction s as [|c s IH]; [reflexivity|]. now rewrite append_cons, IH.
Qed.

Lemma append_assoc (a b c : string) : (a ++ b) ++ c = a ++ (b ++ c).
Proof.
  induction a as [|x a IH]; [reflexivity|]. now rewrite !append_cons, IH.
Qed.

Lemma length_append (a b : string) :
  String.length (a ++ b) = String.length a + String.length b.
Proof.
  induction a as [|x a IH]; [reflexivity|]. rewrite append_cons. simpl. now rewrite IH.
Qed.

Lemma id_start_not_delimiter c : is_id_start c = true -> Ascii.eqb c delimiter = false.
Proof.
  intros H. destruct (Ascii.eqb_spec c delimiter) as [->|]; [discriminate H | reflexivity].
Qed.

Lemma id_start_id_char c : is_id_start c = true -> is_id_char c = true.
Proof. unfold is_id_char. now intros ->. Qed.

Lemma starts_with_id_char_app a b :
  starts_with_id_char (a ++ b) =
  match a with EmptyString => starts_with_id_char b | _ => starts_with_id_char a end.
Proof. now destruct a. Qed.

(** The greedy run stops where the identifier characters stop. *)
Lemma id_run_app name s :
  all_chars is_id_char name = true -> starts_with_id_char s = false ->
  id_run (name ++ s) = name.
Proof.
  induction name as [|c name IH]; intros Hn Hs.
  - rewrite append_empty_l. destruct s as [|c s]; simpl in *; [reflexivity | now rewrite Hs].
  - simpl in Hn. apply andb_prop in Hn as [Hc Hn].
    rewrite append_cons. simpl. now rewrite Hc, IH.
Qed.

Lemma drop_string_app a b : drop_string (String.length a) (a ++ b) = b.
Proof.
  induction a as [|c a IH]; [now destruct b|]. rewrite append_cons. exact IH.
Qed.

Lemma match_after_escaped s : match_after (String delimiter s) = escaped.
Proof. reflexivity. Qed.

Lemma match_after_named name s :
  identifier name = true -> starts_with_id_char s = false ->
  match_after (name ++ s) = named name.
Proof.
  destruct name as [|c name]; [discriminate|]. intros Hn Hs.
  pose proof Hn as Hid. simpl in Hn. apply andb_prop in Hn as [Hc Hn].
  rewrite append_cons. unfold match_after.
  rewrite (id_start_not_delimiter c Hc), Hc. rewrite <- append_cons.
  rewrite id_run_app; [reflexivity| |exact Hs].
  simpl. now rewrite (id_start_id_char c Hc).
Qed.

Lemma match_after_braced name s :
  identifier name = true ->
  match_after (String "{" (name ++ String "}" s)) = braced name.
Proof.
  destruct name as [|c name]; [discriminate|]. intros Hn.
  simpl in Hn. apply andb_prop in Hn as [Hc Hn].
  assert (Hrun : id_run (String c name ++ String "}" s) = String c name).
  { apply id_run_app; [|reflexivity]. simpl. now rewrite (id_start_id_char c Hc). }
  unfold match_after.
  change (Ascii.eqb "{" delimiter) with false. cbv iota.
  change (is_id_start "{") with false. cbv iota.
  change (Ascii.eqb "{" "{") with true. cbv iota.
  rewrite append_cons at 1. rewrite Hc.
  rewrite Hrun, drop_string_app. reflexivity.
Qed.

Section Facts.
Context {V : Type} (py_str : V -> string).
Implicit Types (d : gmap string V) (segs : list segment).

Lemma sub_skip d a b : sub py_str d (String.length a) (a ++ b) = sub py_str d 0 b.
Proof.
  induction a as [|c a IH]; [now destruct b|]. rewrite append_cons. exact IH.
Qed.

Lemma sub_delimiter d s :
  sub py_str d 0 (String delimiter s) =
  (r <- convert py_str d (match_after s) ;;
   rest <- sub py_str d (span (match_after s)) s ;;
   Ok (r ++ rest)).
Proof. reflexivity. Qed.

Lemma sub_lit d a b :
  no_delimiter a = true ->
  sub py_str d 0 (a ++ b) = (r <- sub py_str d 0 b ;; Ok (a ++ r)).
Proof.
  induction a as [|c a IH]; intros Ha.
  - rewrite append_empty_l. now destruct (sub py_str d 0 b).
  - simpl in Ha. apply andb_prop in Ha as [Hc Ha]. apply negb_true_iff in Hc.
    rewrite append_cons. simpl. rewrite Hc, (IH Ha).
    now destruct (sub py_str d 0 b).
Qed.

(** Scanning a valid template agrees with filling its segments, whatever
    follows, as long as what follows does not continue a name. *)
Lemma sub_show_app d segs rest :
  well_formed segs = true -> starts_with_id_char rest = false ->
  sub py_str d 0 (show segs ++ rest) =
  (out <- fill py_str d segs ;; r <- sub py_str d 0 rest ;; Ok (out ++ r)).
Proof.
  induction segs as [|seg segs IH]; intros Hwf Hrest.
  - simpl. rewrite append_empty_l. now destruct (sub py_str d 0 rest).
  - simpl show. rewrite append_assoc.
    destruct seg as [s| |name|name]; simpl in Hwf; simpl fill; simpl show_segment.
    + apply andb_prop in Hwf as [Hs Hwf].
      rewrite (sub_lit d s _ Hs), (IH Hwf Hrest).
      destruct (fill py_str d segs) as [out|e]; simpl; [|reflexivity].
      destruct (sub py_str d 0 rest) as [r|e]; simpl; [|reflexivity].
      now rewrite append_assoc.
    + change ("@@" ++ show segs ++ rest)
        with (String delimiter (String delimiter (show segs ++ rest))).
      rewrite sub_delimiter, match_after_escaped.
      change (span escaped) with (String.length (String delimiter "")).
      change (String delimiter (show segs ++ rest))
        with (String delimiter "" ++ (show segs ++ rest)) at 1.
      rewrite sub_skip, (IH Hwf Hrest). simpl.
      destruct (fill py_str d segs) as [out|e]; simpl; [|reflexivity].
      now destruct (sub py_str d 0 rest).
    + apply andb_prop in Hwf as [Hwf Hwf']. apply andb_prop in Hwf as [Hn Hnext].
      apply negb_true_iff in Hnext.
      assert (Hfollow : starts_with_id_char (show segs ++ rest) = false).
      { rewrite starts_with_id_char_app. now destruct (show segs). }
      rewrite append_cons, sub_delimiter.
      rewrite (match_after_named name _ Hn Hfollow). simpl convert. simpl span.
      destruct (d !! name) as [v|]; cbn [bind]; [|reflexivity].
      rewrite sub_skip, (IH Hwf' Hrest).
      destruct (fill py_str d segs) as [out|e]; simpl; [|reflexivity].
      destruct (sub py_str d 0 rest) as [r|e]; simpl; [|reflexivity].
      now rewrite append_assoc.
    + apply andb_prop in Hwf as [Hn Hwf].
      rewrite !append_cons, append_assoc, append_cons, append_empty_l.
      rewrite sub_delimiter.
      rewrite (match_after_braced name _ Hn). simpl convert. simpl span.
      destruct (d !! name) as [v|]; cbn [bind]; [|reflexivity].
      replace (String "{" (name ++ String "}" (show segs ++ rest)))
        with ((String "{" (name ++ "}")) ++ (show segs ++ rest))
        by (now rewrite append_cons, append_assoc).
      replace (String.length name + 2) with (String.length (String "{" (name ++ "}")))
        by (simpl; rewrite length_append; simpl; lia).
      rewrite sub_skip, (IH Hwf Hrest).
      destruct (fill py_str d segs) as [out|e]; simpl; [|reflexivity].
      destruct (sub py_str d 0 rest) as [r|e]; simpl; [|reflexivity].
      now rewrite append_assoc.
Qed.

Lemma sub_show d segs :
  well_formed segs = true -> sub py_str d 0 (show segs) = fill py_str d segs.
Proof.
  intros Hwf. rewrite <- (append_empty_r (show segs)).
  rewrite (sub_show_app d segs "" Hwf eq_refl). simpl.
  destruct (fill py_str d segs) as [out|e]; simpl; [|reflexivity].
  now rewrite append_empty_r.
Qed.
End Facts.

(** ** Every template that renders is a valid template *)

Lemma id_run_split s :
  s = id_run s ++ drop_string (String.length (id_run s)) s.
Proof.
  induction s as [|c s IH]; [reflexivity|]. simpl.
  destruct (is_id_char c); [|reflexivity].
  rewrite append_cons. simpl. now rewrite <- IH.
Qed.

Lemma id_run_all s : all_chars is_id_char (id_run s) = true.
Proof.
  induction s as [|c s IH]; [reflexivity|]. simpl.
  destruct (is_id_char c) eqn:Hc; [|reflexivity]. simpl. now rewrite Hc.
Qed.

Lemma id_run_stops s :
  starts_with_id_char (drop_string (String.length (id_run s)) s) = false.
Proof.
  induction s as [|c s IH]; [reflexivity|]. simpl.
  destruct (is_id_char c) eqn:Hc; [exact IH | exact Hc].
Qed.

Lemma closing_brace_cases s name :
  (exists rest, s = String "}" rest)
  \/ match s with
     | String "}" _ => braced name
     | _ => invalid
     end = invalid.
Proof.
  destruct s as [|x rest]; [now right|].
  destruct x as [[] [] [] [] [] [] [] []]; try (now right). left. eauto.
Qed.

(** What [match_after] found tells how the text begins. *)
Lemma match_after_inv s :
  match match_after s with
  | escaped => exists rest, s = String delimiter rest
  | named name =>
      identifier name = true
      /\ exists rest, s = name ++ rest /\ starts_with_id_char rest = false
  | braced name =>
      identifier name = true
      /\ exists rest, s = String "{" (name ++ String "}" rest)
  | invalid => True
  end.
Proof.
  destruct s as [|c s]; [exact I|]. unfold match_after.
  destruct (Ascii.eqb_spec c delimiter) as [->|_]; [eauto|].
  destruct (is_id_start c) eqn:Hc.
  { split.
    - simpl. rewrite (id_start_id_char c Hc). simpl. now rewrite Hc, id_run_all.
    - exists (drop_string (String.length (id_run (String c s))) (String c s)).
      split; [apply id_run_split | apply id_run_stops]. }
  destruct (Ascii.eqb_spec c "{") as [->|_]; [|exact I].
  destruct s as [|c' s]; [exact I|].
  destruct (is_id_start c') eqn:Hc'; [|exact I].
  destruct (closing_brace_cases
              (drop_string (String.length (id_run (String c' s))) (String c' s))
              (id_run (String c' s))) as [[rest Hrest]|Hinv].
  - rewrite Hrest. split.
    + simpl. rewrite (id_start_id_char c' Hc'). simpl. now rewrite Hc', id_run_all.
    + exists rest. rewrite <- Hrest. f_equal. apply id_run_split.
  - now rewrite Hinv.
Qed.

Section Valid.
Context {V : Type} (py_str : V -> string).

Lemma sub_ok_valid (n : nat) : forall (s : string) (d : gmap string V) out,
  (String.length s <= n)%nat -> sub py_str d 0 s = Ok out ->
  exists segs, well_formed segs = true /\ show segs = s.
Proof.
  induction n as [|n IH]; intros s d out Hlen Hsub.
  - destruct s; [|simpl in Hlen; lia]. now exists [].
  - destruct s as [|c s]; [now exists []|]. simpl in Hlen.
    destruct (Ascii.eqb_spec c delimiter) as [->|Hc].
    + rewrite sub_delimiter in Hsub.
      pose proof (match_after_inv s) as Hinv.
      destruct (match_after s) as [|name|name|] eqn:Hm;
        simpl convert in Hsub; simpl span in Hsub; cbn [bind] in Hsub.
      * destruct Hinv as [rest ->].
        change (sub py_str d 1 (String delimiter rest)) with (sub py_str d 0 rest) in Hsub.
        destruct (sub py_str d 0 rest) as [out'|] eqn:Hrest; [|discriminate].
        destruct (IH rest d out') as (segs & Hwf & Hshow);
          [simpl in Hlen; lia | exact Hrest |].
        exists (Esc :: segs). split; [exact Hwf|]. simpl. now rewrite Hshow.
      * destruct Hinv as (Hid & rest & -> & Hstop).
        destruct (d !! name); [|discriminate]. cbn [bind] in Hsub.
        rewrite sub_skip in Hsub.
        destruct (sub py_str d 0 rest) as [out'|] eqn:Hrest; [|discriminate].
        destruct (IH rest d out') as (segs & Hwf & Hshow);
          [rewrite length_append in Hlen; lia | exact Hrest |].
        exists (Var name :: segs). split.
        -- simpl. now rewrite Hid, Hshow, Hstop, Hwf.
        -- simpl. now rewrite Hshow.
      * destruct Hinv as (Hid & rest & ->).
        destruct (d !! name); [|discriminate]. cbn [bind] in Hsub.
        replace (String "{" (name ++ String "}" rest))
          with (String "{" (name ++ "}") ++ rest) in Hsub
          by (now rewrite append_cons, append_assoc).
        replace (String.length name + 2) with (String.length (String "{" (name ++ "}")))
          in Hsub by (simpl; rewrite length_append; simpl; lia).
        rewrite sub_skip in Hsub.
        destruct (sub py_str d 0 rest) as [out'|] eqn:Hrest; [|discriminate].
        destruct (IH rest d out') as (segs & Hwf & Hshow).
        { simpl in Hlen. rewrite length_append in Hlen. simpl in Hlen. lia. }
        { exact Hrest. }
        exists (BracedVar name :: segs). split.
        -- simpl. now rewrite Hid, Hwf.
        -- simpl. rewrite Hshow. now rewrite !append_cons, append_assoc.
      * discriminate.
    + simpl in Hsub. apply Ascii.eqb_neq in Hc. rewrite Hc in Hsub.
      destruct (sub py_str d 0 s) as [out'|] eqn:Hrest; [|discriminate].
      destruct (IH s d out') as (segs & Hwf & Hshow); [lia | exact Hrest |].
      exists (Lit (String c "") :: segs). split.
      * cbn [well_formed]. unfold no_delimiter. cbn [all_chars].
        now rewrite Hc, Hwf.
      * simpl. now rewrite Hshow.
Qed.

(** A template that renders for some mapping is a valid template: it is
    made of literal text, escapes and placeholders, and of nothing else. *)
Lemma substitute_ok_valid (s : string) (d : gmap string V) out :
  substitute py_str (Some s) d = Ok out ->
  exists segs, well_formed segs = true /\ s = show segs.
Proof.
  intros H. destruct (sub_ok_valid (String.length s) s d out (le_n _) H)
    as (segs & Hwf & Hshow).
  now exists segs.
Qed.
End Valid.

Section FillFacts.
Context {V : Type} (py_str : V -> string).
Implicit Types (d : gmap string V) (segs : list segment).

(** Filling depends on the mapping only through the names asked for. *)
Lemma fill_agree d d' segs :
  (forall name, name ∈ placeholders segs -> d !! name = d' !! name) ->
  fill py_str d segs = fill py_str d' segs.
Proof.
  induction segs as [|seg segs IH]; intros Hagree; [reflexivity|].
  assert (Htail : forall name, name ∈ placeholders segs -> d !! name = d' !! name).
  { intros n Hn. apply Hagree. destruct seg; simpl; try exact Hn;
      apply elem_of_cons; now right. }
  simpl. rewrite (IH Htail).
  destruct seg as [s| |name|name]; simpl; try reflexivity;
    rewrite <- (Hagree name) by (simpl; apply elem_of_cons; now left); reflexivity.
Qed.

(** When every name has a value, the pieces are concatenated. *)
Lemma fill_covered d segs :
  (forall name, name ∈ placeholders segs -> is_Some (d !! name)) ->
  fill py_str d segs = Ok (instantiate py_str d segs).
Proof.
  induction segs as [|seg segs IH]; intros Hcov; [reflexivity|].
  assert (Htail : forall name, name ∈ placeholders segs -> is_Some (d !! name)).
  { intros n Hn. apply Hcov. destruct seg; simpl; try exact Hn;
      apply elem_of_cons; now right. }
  simpl. rewrite (IH Htail).
  destruct seg as [s| |name|name]; simpl; try reflexivity;
    (destruct (Hcov name) as [v Hv]; [simpl; apply elem_of_cons; now left|]);
    now rewrite Hv.
Qed.

(** Otherwise the first name without a value is reported. *)
Lemma fill_missing d segs name :
  name ∈ placeholders segs -> d !! name = None ->
  exists missing, missing ∈ placeholders segs /\ d !! missing = None /\
    fill py_str d segs = Raise (KeyError missing).
Proof.
  induction segs as [|seg segs IH]; intros Hin Hnone.
  - simpl in Hin. now apply elem_of_nil in Hin.
  - simpl. destruct seg as [s| |n|n]; simpl in *.
    + destruct (IH Hin Hnone) as (m & Hm & Hd & ->). now exists m.
    + destruct (IH Hin Hnone) as (m & Hm & Hd & ->). now exists m.
    + destruct (d !! n) as [v|] eqn:Hn.
      * apply elem_of_cons in Hin as [->|Hin]; [congruence|].
        destruct (IH Hin Hnone) as (m & Hm & Hd & ->). exists m.
        split; [apply elem_of_cons; now right|]. now split.
      * exists n. split; [apply elem_of_cons; now left|]. now split.
    + destruct (d !! n) as [v|] eqn:Hn.
      * apply elem_of_cons in Hin as [->|Hin]; [congruence|].
        destruct (IH Hin Hnone) as (m & Hm & Hd & ->). exists m.
        split; [apply elem_of_cons; now right|]. now split.
      * exists n. split; [apply elem_of_cons; now left|]. now split.
Qed.

Lemma substitute_show d segs :
  well_formed segs = true ->
  substitute py_str (Some (show segs)) d = fill py_str d segs.
Proof. apply sub_show. Qed.

Lemma render_app (self : ProblemText) (data1 data2 : list (gmap string V)) :
  render py_str self (data1 ++ data2)%list =
  (rs1 <- render py_str self data1 ;;
   rs2 <- render py_str self data2 ;;
   Ok (rs1 ++ rs2)%list).
Proof.
  induction data1 as [|datum data1 IH]; simpl.
  - now destruct (render py_str self data2).
  - destruct (render_datum py_str self datum); simpl; [|reflexivity].
    rewrite IH. destruct (render py_str self data1); simpl; [|reflexivity].
    now destruct (render py_str self data2).
Qed.

Lemma render_map (self : ProblemText) (f : gmap string V -> rendered) data :
  Forall (fun datum => render_datum py_str self datum = Ok (f datum)) data ->
  render py_str self data = Ok (map f data).
Proof.
  induction 1 as [|datum data Hd _ IH]; simpl; [reflexivity|].
  now rewrite Hd, IH.
Qed.

Lemma render_length (self : ProblemText) data rs :
  render py_str self data = Ok rs -> length rs = length data.
Proof.
  revert rs. induction data as [|datum data IH]; simpl; intros rs H.
  - now inversion H.
  - destruct (render_datum py_str self datum); [|discriminate].
    destruct (render py_str self data) as [rs'|]; [|discriminate].
    simpl in H. inversion H; subst. simpl. now rewrite (IH rs').
Qed.
End FillFacts.

(** Claim C8. For a text whose instruction and solution are valid templates
    (the segments [isegs] and [ssegs]) and for data that hold a value for
    every placeholder, [render] returns, for each datum in order, the
    instruction and the solution with every placeholder replaced by [str] of
    its value. Adding to the data a key that is no placeholder of the
    template changes nothing. In particular the instruction [Value: @x] and
    the solution [@x is the value] with [x] mapped to [1] give [Value: 1]
    and [1 is the value]. *)
Theorem render_substitutes_placeholders {V : Type} (py_str : V -> string)
    (self : ProblemText) (isegs ssegs : list segment) (data : list (gmap string V)) :
  instruction self = Some (show isegs) -> solution self = Some (show ssegs) ->
  well_formed isegs = true -> well_formed ssegs = true ->
  Forall (fun datum : gmap string V => forall name,
            name ∈ (placeholders isegs ++ placeholders ssegs)%list ->
            is_Some (datum !! name)) data ->
  render py_str self data =
    Ok (map (fun datum =>
               {| rendered_instruction := instantiate py_str datum isegs;
                  rendered_solution := instantiate py_str datum ssegs |}) data)
  /\ (forall key v,
        key ∉ (placeholders isegs ++ placeholders ssegs)%list ->
        render py_str self (map (insert key v) data) = render py_str self data)
  /\ (forall (key : option nat) (c : ContentType),
        render (fun s : string => s)
          {| text_id := key; text_content_type := c;
             instruction := Some "Value: @x"; solution := Some "@x is the value" |}
          [{["x" := "1"]}]
        = Ok [{| rendered_instruction := "Value: 1";
                 rendered_solution := "1 is the value" |}]).
Proof.
  intros Hi Hs Hwi Hws Hcov. split; [|split].
  - apply render_map. eapply Forall_impl; [exact Hcov|].
    intros datum Hd. unfold render_datum. rewrite Hi, Hs.
    rewrite !substitute_show by assumption.
    rewrite (fill_covered py_str datum isegs)
      by (intros n Hn; apply Hd, elem_of_app; now left).
    rewrite (fill_covered py_str datum ssegs)
      by (intros n Hn; apply Hd, elem_of_app; now right).
    reflexivity.
  - intros key v Hkey. clear Hcov.
    induction data as [|datum data IH]; [reflexivity|]. simpl. rewrite IH.
    replace (render_datum py_str self (<[key:=v]> datum))
      with (render_datum py_str self datum); [reflexivity|].
    unfold render_datum. rewrite Hi, Hs, !substitute_show by assumption.
    rewrite (fill_agree py_str datum (<[key:=v]> datum) isegs).
    2:{ intros n Hn. rewrite lookup_insert_ne; [reflexivity|].
        intros ->. apply Hkey, elem_of_app. now left. }
    rewrite (fill_agree py_str datum (<[key:=v]> datum) ssegs); [reflexivity|].
    intros n Hn. rewrite lookup_insert_ne; [reflexivity|].
    intros ->. apply Hkey, elem_of_app. now right.
  - intros key c. reflexivity.
Qed.

(** Claim C8 on two data, one of them with a key the template does not use. *)
Lemma render_substitutes_placeholders_witness :
  render (fun s : string => s)
    {| text_id := None; text_content_type := get_for_model (SubclassModel "Dice");
       instruction := Some "Value: @x"; solution := Some "@x is the value" |}
    [{["x" := "1"]}; {["x" := "2"; "unused" := "3"]}]
  = Ok [{| rendered_instruction := "Value: 1"; rendered_solution := "1 is the value" |};
        {| rendered_instruction := "Value: 2"; rendered_solution := "2 is the value" |}].
Proof.
  exact (proj1 (render_substitutes_placeholders (fun s : string => s)
    {| text_id := None; text_content_type := get_for_model (SubclassModel "Dice");
       instruction := Some "Value: @x"; solution := Some "@x is the value" |}
    [Lit "Value: "; Var "x"] [Var "x"; Lit " is the value"]
    [{["x" := "1"]}; {["x" := "2"; "unused" := "3"]}]
    eq_refl eq_refl eq_refl eq_refl
    ltac:(repeat constructor; intros name Hn;
          repeat (apply elem_of_cons in Hn as [->|Hn]; [vm_compute; eauto|]);
          now apply elem_of_nil in Hn))).
Defined.

Section More.
Context {V : Type} (py_str : V -> string).
Implicit Types (d : gmap string V) (segs : list segment).

(** What follows a valid, filled prefix is scanned on its own when it
    starts with a delimiter. *)
Lemma sub_after_prefix d segs out rest :
  well_formed segs = true -> fill py_str d segs = Ok out ->
  sub py_str d 0 (show segs ++ String delimiter rest) =
  (r <- sub py_str d 0 (String delimiter rest) ;; Ok (out ++ r)).
Proof.
  intros Hwf Hfill.
  rewrite (sub_show_app py_str d segs (String delimiter rest) Hwf eq_refl), Hfill.
  reflexivity.
Qed.

Lemma sub_no_delimiter d lit :
  no_delimiter lit = true -> sub py_str d 0 lit = Ok lit.
Proof.
  intros H. rewrite <- (append_empty_r lit) at 1.
  rewrite (sub_lit py_str d lit "" H). simpl. now rewrite append_empty_r.
Qed.

Lemma sub_escape d rest :
  sub py_str d 0 (String delimiter (String delimiter rest)) =
  (r <- sub py_str d 0 rest ;; Ok (String delimiter r)).
Proof.
  rewrite sub_delimiter, match_after_escaped.
  change (span escaped) with (String.length (String delimiter "")).
  change (String delimiter rest) with (String delimiter "" ++ rest).
  rewrite sub_skip. simpl. now destruct (sub py_str d 0 rest).
Qed.

(** The first placeholder without a value decides the exception, whatever
    comes after it. *)
Lemma sub_first_missing d segs out name rest :
  well_formed segs = true -> fill py_str d segs = Ok out ->
  identifier name = true -> starts_with_id_char rest = false ->
  d !! name = None ->
  sub py_str d 0 (show segs ++ String delimiter (name ++ rest)) =
  Raise (KeyError name).
Proof.
  intros Hwf Hfill Hname Hrest Hnone.
  rewrite (sub_after_prefix d segs out _ Hwf Hfill), sub_delimiter.
  rewrite (match_after_named name rest Hname Hrest). simpl. now rewrite Hnone.
Qed.
End More.

Lemma match_after_invalid_char c rest :
  c <> delimiter -> is_id_start c = false -> c <> "{"%char ->
  match_after (String c rest) = invalid.
Proof.
  intros H1 H2 H3. unfold match_after.
  apply Ascii.eqb_neq in H1. apply Ascii.eqb_neq in H3. now rewrite H1, H2, H3.
Qed.

(** Claim C9, as the code has it. After a prefix that renders, [@@] renders
    as one [@] and the text after it is scanned afresh; between two texts
    free of delimiters no lookup takes place, whatever the mapping holds, so
    [Price: @@5] renders to [Price: @5]. A delimiter followed by none of a
    second delimiter, an identifier and a braced identifier is not passed
    through: the substitution raises [ValueError]. That is so at the end of
    the template and before every character other than a delimiter, a
    letter, an underscore and an opening brace. *)
Theorem escape_and_invalid_delimiter {V : Type} (py_str : V -> string)
    (d : gmap string V) :
  (forall segs out rest,
      well_formed segs = true -> fill py_str d segs = Ok out ->
      substitute py_str (Some (show segs ++ "@@" ++ rest)) d =
      (r <- substitute py_str (Some rest) d ;; Ok (out ++ "@" ++ r)))
  /\ (forall lit lit',
        no_delimiter lit = true -> no_delimiter lit' = true ->
        substitute py_str (Some (lit ++ "@@" ++ lit')) d = Ok (lit ++ "@" ++ lit'))
  /\ substitute py_str (Some "Price: @@5") d = Ok "Price: @5"
  /\ (forall segs out rest,
        well_formed segs = true -> fill py_str d segs = Ok out ->
        match_after rest = invalid ->
        substitute py_str (Some (show segs ++ "@" ++ rest)) d = Raise ValueError)
  /\ (forall c rest,
        c <> delimiter -> is_id_start c = false -> c <> "{"%char ->
        match_after (String c rest) = invalid)
  /\ match_after "" = invalid.
Proof.
  assert (Hesc : forall segs out rest,
      well_formed segs = true -> fill py_str d segs = Ok out ->
      substitute py_str (Some (show segs ++ "@@" ++ rest)) d =
      (r <- substitute py_str (Some rest) d ;; Ok (out ++ "@" ++ r))).
  { intros segs out rest Hwf Hfill. unfold substitute.
    change ("@@" ++ rest) with (String delimiter (String delimiter rest)).
    rewrite (sub_after_prefix py_str d segs out _ Hwf Hfill), sub_escape.
    now destruct (sub py_str d 0 rest). }
  assert (Hlit : forall lit lit',
        no_delimiter lit = true -> no_delimiter lit' = true ->
        substitute py_str (Some (lit ++ "@@" ++ lit')) d = Ok (lit ++ "@" ++ lit')).
  { intros lit lit' Hl Hl'. unfold substitute.
    change ("@@" ++ lit') with (String delimiter (String delimiter lit')).
    rewrite (sub_lit py_str d lit _ Hl), sub_escape.
    now rewrite (sub_no_delimiter py_str d lit' Hl'). }
  split; [exact Hesc|]. split; [exact Hlit|]. split; [|split; [|split]].
  - exact (Hlit "Price: " "5" eq_refl eq_refl).
  - intros segs out rest Hwf Hfill Hinv. unfold substitute.
    change ("@" ++ rest) with (String delimiter rest).
    rewrite (sub_after_prefix py_str d segs out _ Hwf Hfill), sub_delimiter, Hinv.
    reflexivity.
  - exact match_after_invalid_char.
  - reflexivity.
Qed.

(** Against claim C9 as stated: the template [a @ b], in which the delimiter
    is followed by a blank, does not render to itself; the substitution
    raises [ValueError]. *)
Lemma lone_delimiter_not_passed_through :
  substitute (fun s : string => s) (Some "a @ b") ∅ = Raise ValueError
  /\ substitute (fun s : string => s) (Some "a @ b") ∅ <> Ok "a @ b".
Proof. split; [vm_compute; reflexivity | vm_compute; discriminate]. Qed.

Section Missing.
Context {V : Type} (py_str : V -> string).
Implicit Types (d : gmap string V) (segs : list segment).

Lemma first_missing_raises d name s :
  first_missing py_str d name s -> sub py_str d 0 s = Raise (KeyError name).
Proof.
  intros (segs & out & rest & Hwf & Hfill & Hid & Hnone & [[-> Hrest]| ->]).
  - exact (sub_first_missing py_str d segs out name rest Hwf Hfill Hid Hrest Hnone).
  - rewrite (sub_after_prefix py_str d segs out _ Hwf Hfill), sub_delimiter.
    rewrite (match_after_braced name rest Hid). simpl. now rewrite Hnone.
Qed.

(** Valid text that fills, put before a template, keeps its first missing
    placeholder. *)
Lemma first_missing_prefix d name s seg out :
  fill_segment py_str d seg = Ok out ->
  (forall segs, well_formed segs = true ->
     (exists tail, s = show segs ++ String delimiter tail) ->
     well_formed (seg :: segs) = true) ->
  first_missing py_str d name s ->
  first_missing py_str d name (show_segment seg ++ s).
Proof.
  intros Hseg Hcons (segs & out' & rest & Hwf & Hfill & Hid & Hnone & Hs).
  exists (seg :: segs), (out ++ out'), rest.
  split.
  { apply Hcons; [exact Hwf|]. destruct Hs as [[-> _]| ->]; eauto. }
  split; [simpl; now rewrite Hseg, Hfill|].
  split; [exact Hid|]. split; [exact Hnone|].
  simpl show. rewrite !append_assoc.
  destruct Hs as [[-> Hrest]| ->]; [left; now split | now right].
Qed.

Lemma sub_key_error_inv (n : nat) : forall (s : string) d name,
  (String.length s <= n)%nat -> sub py_str d 0 s = Raise (KeyError name) ->
  first_missing py_str d name s.
Proof.
  induction n as [|n IH]; intros s d name Hlen Hsub.
  - destruct s; [discriminate | simpl in Hlen; lia].
  - destruct s as [|c s]; [discriminate|]. simpl in Hlen.
    destruct (Ascii.eqb_spec c delimiter) as [->|Hc].
    + rewrite sub_delimiter in Hsub.
      pose proof (match_after_inv s) as Hinv.
      destruct (match_after s) as [|n0|n0|] eqn:Hm;
        simpl convert in Hsub; simpl span in Hsub; cbn [bind] in Hsub.
      * destruct Hinv as [rest ->].
        change (sub py_str d 1 (String delimiter rest)) with (sub py_str d 0 rest) in Hsub.
        destruct (sub py_str d 0 rest) as [out'|e'] eqn:Hrest; [discriminate|].
        inversion Hsub; subst e'.
        apply (first_missing_prefix d name rest Esc (String delimiter ""));
          [reflexivity | intros segs Hwf _; exact Hwf|].
        apply (IH rest d name); [simpl in Hlen; lia | exact Hrest].
      * destruct Hinv as (Hid & rest & -> & Hstop).
        destruct (d !! n0) as [v|] eqn:Hd; cbn [bind] in Hsub.
        -- rewrite sub_skip in Hsub.
           destruct (sub py_str d 0 rest) as [out'|e'] eqn:Hrest; [discriminate|].
           inversion Hsub; subst e'.
           apply (first_missing_prefix d name rest (Var n0) (py_str v)).
           ++ simpl. now rewrite Hd.
           ++ intros segs Hwf [tail Htail]. simpl. rewrite Hid, Hwf. simpl.
              rewrite andb_true_r. apply negb_true_iff.
              rewrite Htail, starts_with_id_char_app in Hstop.
              now destruct (show segs).
           ++ apply (IH rest d name); [rewrite length_append in Hlen; lia | exact Hrest].
        -- inversion Hsub; subst n0. exists [], "", rest.
           split; [reflexivity|]. split; [reflexivity|]. split; [exact Hid|].
           split; [exact Hd|]. left. now split.
      * destruct Hinv as (Hid & rest & ->).
        destruct (d !! n0) as [v|] eqn:Hd; cbn [bind] in Hsub.
        -- replace (String "{" (n0 ++ String "}" rest))
             with (String "{" (n0 ++ "}") ++ rest) in Hsub
             by (now rewrite append_cons, append_assoc).
           replace (String.length n0 + 2) with (String.length (String "{" (n0 ++ "}")))
             in Hsub by (simpl; rewrite length_append; simpl; lia).
           rewrite sub_skip in Hsub.
           destruct (sub py_str d 0 rest) as [out'|e'] eqn:Hrest; [discriminate|].
           inversion Hsub; subst e'.
           replace (String delimiter (String "{" (n0 ++ String "}" rest)))
             with (show_segment (BracedVar n0) ++ rest)
             by (simpl; now rewrite !append_cons, append_assoc).
           apply (first_missing_prefix d name rest (BracedVar n0) (py_str v)).
           ++ simpl. now rewrite Hd.
           ++ intros segs Hwf _. simpl. now rewrite Hid, Hwf.
           ++ apply (IH rest d name); [|exact Hrest].
              simpl in Hlen. rewrite length_append in Hlen. simpl in Hlen. lia.
        -- inversion Hsub; subst n0. exists [], "", rest.
           split; [reflexivity|]. split; [reflexivity|]. split; [exact Hid|].
           split; [exact Hd|]. now right.
      * discriminate.
    + simpl in Hsub. apply Ascii.eqb_neq in Hc. rewrite Hc in Hsub.
      destruct (sub py_str d 0 s) as [out'|e'] eqn:Hrest; [discriminate|].
      inversion Hsub; subst e'.
      apply (first_missing_prefix d name s (Lit (String c "")) (String c "")).
      * reflexivity.
      * intros segs Hwf _. cbn [well_formed]. unfold no_delimiter. cbn [all_chars].
        now rewrite Hc, Hwf.
      * apply (IH s d name); [lia | exact Hrest].
Qed.

(** [substitute] raises [KeyError] for a name exactly on the templates
    whose first failing place is a placeholder for that name. *)
Lemma substitute_key_error d name s :
  substitute py_str (Some s) d = Raise (KeyError name) <-> first_missing py_str d name s.
Proof.
  split; [apply (sub_key_error_inv (String.length s)), le_n | apply first_missing_raises].
Qed.

(** Over valid templates: a datum that lacks the value of a placeholder
    makes the rendering raise [KeyError] for the first placeholder it
    lacks. *)
Lemma render_missing_valid (self : ProblemText) (isegs ssegs : list segment)
    (datum : gmap string V) (name : string) :
  instruction self = Some (show isegs) -> solution self = Some (show ssegs) ->
  well_formed isegs = true -> well_formed ssegs = true ->
  name ∈ (placeholders isegs ++ placeholders ssegs)%list ->
  datum !! name = None ->
  exists missing,
    missing ∈ (placeholders isegs ++ placeholders ssegs)%list
    /\ datum !! missing = None
    /\ render_datum py_str self datum = Raise (KeyError missing).
Proof.
  intros Hi Hs Hwi Hws Hin Hnone.
  unfold render_datum. rewrite Hi, Hs, !substitute_show by assumption.
  destruct (fill py_str datum isegs) as [i|e] eqn:Hfi.
  - assert (name ∈ placeholders ssegs) as Hin'.
    { apply elem_of_app in Hin as [Hin|Hin]; [|exact Hin].
      destruct (fill_missing py_str datum isegs name Hin Hnone) as (m & _ & _ & Hm).
      congruence. }
    destruct (fill_missing py_str datum ssegs name Hin' Hnone) as (m & Hm & Hd & ->).
    exists m. split; [apply elem_of_app; now right|]. now split.
  - assert (exists n, n ∈ placeholders isegs /\ datum !! n = None) as (n & Hn & Hdn).
    { destruct (decide (Forall (fun n => is_Some (datum !! n)) (placeholders isegs)))
        as [Hall|Hnot].
      - rewrite (fill_covered py_str datum isegs) in Hfi; [discriminate|].
        intros n Hn. now apply (proj1 (Forall_forall _ _) Hall).
      - apply not_Forall_Exists in Hnot; [|intros x; apply _].
        apply Exists_exists in Hnot as (n & Hn & Hdn). exists n. split; [exact Hn|].
        now apply eq_None_not_Some. }
    destruct (fill_missing py_str datum isegs n Hn Hdn) as (m & Hm & Hd & Hf).
    rewrite Hf in Hfi. inversion Hfi; subst e.
    exists m. split; [apply elem_of_app; now left|]. now split.
Qed.
End Missing.

(** Claim C10, as the code has it. [render] raises [KeyError], the error
    for a missing placeholder, exactly as follows. The substitution raises
    [KeyError] for [name] on the templates that begin with valid text that
    the datum fills and go on with a placeholder [@name] or [@{name}] whose
    value the datum lacks, and on no other template; what follows the
    placeholder plays no part. Rendering a datum raises [KeyError] for
    [name] exactly when the instruction is such a template, or the
    instruction renders and the solution is such a template; [render] then
    raises it on every list of data in which this datum comes after data
    that render. In particular a valid instruction and a valid solution
    raise [KeyError] as soon as the datum lacks the value of one of their
    placeholders. But a template in which a delimiter that starts neither
    an escape nor a placeholder comes first raises [ValueError], whatever
    placeholder follows it. *)
Theorem render_missing_placeholder_fails {V : Type} (py_str : V -> string)
    (self : ProblemText) (itext stext : string) (datum : gmap string V) :
  instruction self = Some itext -> solution self = Some stext ->
  (forall s name,
      substitute py_str (Some s) datum = Raise (KeyError name)
      <-> first_missing py_str datum name s)
  /\ (forall name,
        render_datum py_str self datum = Raise (KeyError name)
        <-> (first_missing py_str datum name itext
             \/ ((exists out, substitute py_str (Some itext) datum = Ok out)
                 /\ first_missing py_str datum name stext)))
  /\ (forall name before after rs,
        render_datum py_str self datum = Raise (KeyError name) ->
        render py_str self before = Ok rs ->
        render py_str self (before ++ datum :: after)%list = Raise (KeyError name))
  /\ (forall isegs ssegs name,
        itext = show isegs -> stext = show ssegs ->
        well_formed isegs = true -> well_formed ssegs = true ->
        name ∈ (placeholders isegs ++ placeholders ssegs)%list ->
        datum !! name = None ->
        exists missing,
          missing ∈ (placeholders isegs ++ placeholders ssegs)%list
          /\ datum !! missing = None
          /\ render_datum py_str self datum = Raise (KeyError missing))
  /\ (forall segs out rest,
        well_formed segs = true -> fill py_str datum segs = Ok out ->
        match_after rest = invalid ->
        itext = show segs ++ String delimiter rest ->
        render_datum py_str self datum = Raise ValueError).
Proof.
  intros Hi Hs. split; [|split; [|split; [|split]]].
  - intros s name. apply substitute_key_error.
  - intros name. unfold render_datum. rewrite Hi, Hs.
    rewrite <- !substitute_key_error.
    destruct (substitute py_str (Some itext) datum) as [i|e] eqn:Hit; cbn [bind].
    + destruct (substitute py_str (Some stext) datum) as [s|e] eqn:Hst; cbn [bind].
      * split; [discriminate|]. intros [H|[_ H]]; discriminate.
      * split.
        -- intros H. inversion H; subst e. right. split; [eauto | reflexivity].
        -- intros [H|[_ H]]; [discriminate|]. now inversion H.
    + split.
      * intros H. inversion H; subst e. now left.
      * intros [H|[[out H] _]]; [now inversion H | discriminate].
  - intros name before after rs Hd Hb. rewrite render_app, Hb. simpl. now rewrite Hd.
  - intros isegs ssegs name -> -> Hwi Hws Hin Hnone.
    exact (render_missing_valid py_str self isegs ssegs datum name Hi Hs Hwi Hws Hin Hnone).
  - intros segs out rest Hwf Hfill Hinv ->. unfold render_datum. rewrite Hi.
    unfold substitute.
    rewrite (sub_after_prefix py_str datum segs out _ Hwf Hfill), sub_delimiter, Hinv.
    reflexivity.
Qed.

(** Against claim C10 as stated: the template [50@ off, solve @unknown]
    contains the placeholder [@unknown], for which the datum has no value,
    yet rendering it does not raise the error for a missing placeholder: the
    delimiter after [50] comes first, and the call raises [ValueError]. *)
Lemma invalid_delimiter_before_missing_placeholder :
  render (fun s : string => s)
    {| text_id := None; text_content_type := get_for_model (SubclassModel "Dice");
       instruction := Some "50@ off, solve @unknown"; solution := Some "" |}
    [{["x" := "1"]}]
  = Raise ValueError
  /\ render (fun s : string => s)
       {| text_id := None; text_content_type := get_for_model (SubclassModel "Dice");
          instruction := Some "50@ off, solve @unknown"; solution := Some "" |}
       [{["x" := "1"]}]
     <> Raise (KeyError "unknown").
Proof. split; [vm_compute; reflexivity | vm_compute; discriminate]. Qed.

(** Claim C10 on the template [Solve @unknown], and on the template
    [@missing @], which is not valid after its placeholder, both with a
    datum that lacks the value. *)
Lemma render_missing_placeholder_fails_witness :
  render (fun s : string => s)
    {| text_id := None; text_content_type := get_for_model (SubclassModel "Dice");
       instruction := Some "Solve @unknown"; solution := Some "" |}
    [{["unknown" := "1"]}; {["x" := "1"]}; {["unknown" := "2"]}]
  = Raise (KeyError "unknown")
  /\ render_datum (fun s : string => s)
       {| text_id := None; text_content_type := get_for_model (SubclassModel "Dice");
          instruction := Some "@missing @"; solution := Some "" |}
       {["x" := "1"]}
     = Raise (KeyError "missing").
Proof.
  split.
  - destruct (render_missing_placeholder_fails (fun s : string => s)
                {| text_id := None; text_content_type := get_for_model (SubclassModel "Dice");
                   instruction := Some "Solve @unknown"; solution := Some "" |}
                "Solve @unknown" "" {["x" := "1"]} eq_refl eq_refl)
      as (_ & Hdatum & Hlist & _).
    apply (Hlist "unknown" [{["unknown" := "1"]}] [{["unknown" := "2"]}]
             [{| rendered_instruction := "Solve 1"; rendered_solution := "" |}]);
      [|reflexivity].
    apply Hdatum. left. exists [Lit "Solve "], "Solve ", "".
    repeat split; try reflexivity. left. now split.
  - destruct (render_missing_placeholder_fails (fun s : string => s)
                {| text_id := None; text_content_type := get_for_model (SubclassModel "Dice");
                   instruction := Some "@missing @"; solution := Some "" |}
                "@missing @" "" {["x" := "1"]} eq_refl eq_refl)
      as (_ & Hdatum & _).
    apply Hdatum. left. exists [], "", " @".
    repeat split; try reflexivity. left. now split.
Defined.

(** Claim C9, as the code has it, on an address with an escaped delimiter
    and on a price tag with a lone one. *)
Lemma escape_and_invalid_delimiter_witness :
  substitute (fun s : string => s) (Some "Tom@@home")
    {["home" := "away"; "off" := "on"]} = Ok "Tom@home"
  /\ substitute (fun s : string => s) (Some "50@ off")
       {["home" := "away"; "off" := "on"]} = Raise ValueError.
Proof.
  pose proof (escape_and_invalid_delimiter (fun s : string => s)
                {["home" := "away"; "off" := "on"]}) as (_ & Hlit & _ & Hinv & _).
  split.
  - exact (Hlit "Tom" "home" eq_refl eq_refl).
  - exact (Hinv [Lit "50"] "50" " off" eq_refl eq_refl eq_refl).
Defined.

(** ** The substitution on sample templates

    Values are strings, of which [str] is the identity. *)
Example substitute_samples :
  let run t := substitute (fun s : string => s) (Some t) Demo.sample in
  run "no placeholder" = Ok "no placeholder"
  /\ run "@x and @x" = Ok "1 and 1"
  /\ run "@x_1!" = Ok "one!"
  /\ run "@{x}_1" = Ok "1_1"
  /\ run "Dear @Name," = Ok "Dear Ana,"
  /\ run "@name" = Raise (KeyError "name")
  /\ run "@x2" = Raise (KeyError "x2")
  /\ run "a@@x" = Ok "a@x"
  /\ run "@@@x" = Ok "@1"
  /\ run "@1" = Raise ValueError
  /\ run "100@" = Raise ValueError
  /\ run "@{x" = Raise ValueError
  /\ run "@{}" = Raise ValueError
  /\ run "@{ x}" = Raise ValueError
  /\ run "@missing @" = Raise (KeyError "missing")
  /\ run "@ @missing" = Raise ValueError
  /\ substitute (fun s : string => s) None Demo.sample = Raise TypeError.
Proof. repeat split; reflexivity. Qed.

(* ===================================================================== *)
(** * Properties of generation                                            *)
(* ===================================================================== *)

Section GenerationFacts.
Context {R V P : Type}.
Context (seed_rng : string -> R).
Context (py_str : V -> string).
Context (subclasses : string -> kind R V P).

Local Abbreviation attempts := (attempts subclasses).
Local Abbreviation generate_slots := (generate_slots seed_rng subclasses).
Local Abbreviation _generate_data := (_generate_data seed_rng subclasses).
Local Abbreviation retry_chain := (retry_chain subclasses).
Local Abbreviation slots_trace := (slots_trace seed_rng subclasses).
Local Abbreviation rejects_then_accepts := (rejects_then_accepts subclasses).
Local Abbreviation _render_text := (_render_text py_str subclasses).
Local Abbreviation student_text := (student_text seed_rng py_str subclasses).
Local Abbreviation example_text := (example_text seed_rng py_str subclasses).

Implicit Types (w : world R V) (self : Problem P).

(** *** The retry loop *)

Lemma attempts_rng fuel self w1 w2 :
  rng w1 = rng w2 ->
  observable (attempts fuel self w1) = observable (attempts fuel self w2).
Proof.
  revert w1 w2. induction fuel as [|fuel IH]; intros w1 w2 Hr; [reflexivity|].
  simpl. unfold call_generate. rewrite Hr.
  destruct (generate _ _ (rng w2)) as [[datum|e] r]; [reflexivity|].
  destruct e; try reflexivity. now apply IH.
Qed.

Lemma attempts_more_fuel fuel fuel' self w x :
  attempts fuel self w = Some x -> (fuel <= fuel')%nat -> attempts fuel' self w = Some x.
Proof.
  revert fuel' w. induction fuel as [|fuel IH]; intros fuel' w H Hle; [discriminate|].
  destruct fuel' as [|fuel']; [lia|]. simpl in *.
  destruct (call_generate subclasses self w) as [[datum|e] w1]; [exact H|].
  destruct e; try exact H. apply IH; [exact H | lia].
Qed.

Lemma attempts_chain fuel self w outcome w' :
  attempts fuel self w = Some (outcome, w') ->
  exists chain, trace w' = (trace w ++ chain)%list
                /\ retry_chain self (rng w) chain outcome.
Proof.
  revert w. induction fuel as [|fuel IH]; intros w H; [discriminate|].
  simpl in H. unfold call_generate in H.
  destruct (generate _ _ (rng w)) as [o r] eqn:Hg.
  assert (Hstop : o <> Raise GeneratedDataIncorrect ->
            Some (o, {| rng := r; trace := (trace w ++ [Generated (rng w) o r])%list |})
            = Some (outcome, w') ->
            exists chain, trace w' = (trace w ++ chain)%list
                          /\ retry_chain self (rng w) chain outcome).
  { intros Hne Heq. inversion Heq; subst. exists [Generated (rng w) outcome r].
    simpl. repeat split; auto. }
  destruct o as [datum|e]; [apply Hstop; [discriminate | exact H]|].
  destruct e; try (apply Hstop; [discriminate | exact H]).
  apply IH in H as (chain & Ht & Hc). simpl in Ht, Hc.
  exists (Generated (rng w) (Raise GeneratedDataIncorrect) r :: chain).
  split; [now rewrite Ht, <- app_assoc|].
  simpl. repeat split; auto.
  destruct chain as [|ev chain]; [destruct Hc|]. split; [reflexivity | exact Hc].
Qed.

Lemma retry_chain_final self r chain final :
  retry_chain self r chain final -> final <> Raise GeneratedDataIncorrect.
Proof.
  revert r. induction chain as [|ev chain IH]; intros r H; [destruct H|].
  destruct ev as [a|before o after]; [destruct H|].
  destruct H as (_ & _ & H). destruct chain as [|ev' chain]; [apply H|].
  destruct H as [_ H]. exact (IH _ H).
Qed.

Lemma attempts_accept fuel self w k datum :
  rejects_then_accepts self k (rng w) datum -> (k < fuel)%nat ->
  exists w', attempts fuel self w = Some (Ok datum, w').
Proof.
  revert fuel w. induction k as [|k IH]; intros fuel w H Hlt;
    (destruct fuel as [|fuel]; [lia|]); simpl in *; unfold call_generate.
  - destruct (generate _ _ (rng w)) as [o r]. subst o. eauto.
  - destruct (generate _ _ (rng w)) as [o r]. destruct H as [-> H].
    apply IH; [exact H | lia].
Qed.

(** *** The loop over the subproblems *)

Lemma generate_slots_rng fuel self seed indices w1 w2 :
  rng w1 = rng w2 ->
  observable (generate_slots fuel self seed indices w1)
  = observable (generate_slots fuel self seed indices w2).
Proof.
  revert w1 w2. induction indices as [|i indices IH]; intros w1 w2 Hr.
  - simpl. now rewrite Hr.
  - simpl.
    pose proof (attempts_rng fuel self
                  (random_seed seed_rng (slot_seed i seed) w1)
                  (random_seed seed_rng (slot_seed i seed) w2) eq_refl) as Ha.
    destruct (attempts fuel self (random_seed seed_rng (slot_seed i seed) w1))
      as [[[datum|e] w1']|];
    destruct (attempts fuel self (random_seed seed_rng (slot_seed i seed) w2))
      as [[[datum2|e2] w2']|]; simpl in Ha; try discriminate;
      [| inversion Ha as [[He Hr']]; simpl; now rewrite Hr' | reflexivity].
    inversion Ha as [[Hd Hr']]. subst datum2.
    specialize (IH w1' w2' Hr').
    destruct (generate_slots fuel self seed indices w1') as [[[data|e] w1'']|];
    destruct (generate_slots fuel self seed indices w2') as [[[data2|e2] w2'']|];
      simpl in IH; try discriminate; try exact IH.
    inversion IH as [[Hd' Hr'']]. simpl. now rewrite Hr''.
Qed.

(** The data of a run do not depend on the state the random source was in
    when the run began. *)
Lemma generate_slots_ambient fuel self seed indices w1 w2 :
  fst <$> generate_slots fuel self seed indices w1
  = fst <$> generate_slots fuel self seed indices w2.
Proof.
  destruct indices as [|i indices]; [reflexivity|].
  assert (observable (generate_slots fuel self seed (i :: indices) w1)
          = observable (generate_slots fuel self seed (i :: indices) w2)) as H.
  { simpl.
    pose proof (attempts_rng fuel self
                  (random_seed seed_rng (slot_seed i seed) w1)
                  (random_seed seed_rng (slot_seed i seed) w2) eq_refl) as Ha.
    destruct (attempts fuel self (random_seed seed_rng (slot_seed i seed) w1))
      as [[[datum|e] w1']|];
    destruct (attempts fuel self (random_seed seed_rng (slot_seed i seed) w2))
      as [[[datum2|e2] w2']|]; simpl in Ha; try discriminate;
      [| inversion Ha as [[He Hr']]; simpl; now rewrite Hr' | reflexivity].
    inversion Ha as [[Hd Hr']]. subst datum2.
    pose proof (generate_slots_rng fuel self seed indices w1' w2' Hr') as IH.
    destruct (generate_slots fuel self seed indices w1') as [[[data|e] w1'']|];
    destruct (generate_slots fuel self seed indices w2') as [[[data2|e2] w2'']|];
      simpl in IH; try discriminate; try exact IH.
    inversion IH as [[Hd' Hr'']]. simpl. now rewrite Hr''. }
  destruct (generate_slots fuel self seed (i :: indices) w1) as [[res1 w1']|];
  destruct (generate_slots fuel self seed (i :: indices) w2) as [[res2 w2']|];
    simpl in H; try discriminate; [|reflexivity].
  inversion H. reflexivity.
Qed.

Lemma generate_slots_more_fuel fuel fuel' self seed indices w x :
  generate_slots fuel self seed indices w = Some x -> (fuel <= fuel')%nat ->
  generate_slots fuel' self seed indices w = Some x.
Proof.
  revert w x. induction indices as [|i indices IH]; intros w x H Hle; [exact H|].
  simpl in *.
  destruct (attempts fuel self (random_seed seed_rng (slot_seed i seed) w))
    as [[[datum|e] w1]|] eqn:Ha; [| |discriminate];
    rewrite (attempts_more_fuel _ fuel' _ _ _ Ha Hle); [|exact H].
  destruct (generate_slots fuel self seed indices w1) as [y|] eqn:Hg; [|discriminate].
  now rewrite (IH _ _ Hg Hle).
Qed.

Lemma generate_slots_trace fuel self seed indices w res w' :
  generate_slots fuel self seed indices w = Some (res, w') ->
  exists evs, trace w' = (trace w ++ evs)%list
              /\ slots_trace self seed indices evs res.
Proof.
  revert w res w'. induction indices as [|i indices IH]; intros w res w' H.
  - simpl in H. inversion H; subst. exists []. now rewrite app_nil_r.
  - simpl in H.
    destruct (attempts fuel self (random_seed seed_rng (slot_seed i seed) w))
      as [[o w1]|] eqn:Ha; [|discriminate].
    apply attempts_chain in Ha as (chain & Ht & Hc). simpl in Ht, Hc.
    destruct o as [datum|e].
    + destruct (generate_slots fuel self seed indices w1) as [[res' w2]|] eqn:Hg;
        [|discriminate].
      apply IH in Hg as (evs' & Ht' & Hs).
      exists (Seeded (slot_seed i seed) :: chain ++ evs')%list. split.
      * assert (w' = w2) as -> by (destruct res'; now inversion H).
        rewrite Ht', Ht, <- !app_assoc. reflexivity.
      * simpl. exists chain, (Ok datum), evs'. repeat split; auto.
        exists res'. split; [exact Hs|]. destruct res'; now inversion H.
    + inversion H; subst. exists (Seeded (slot_seed i seed) :: chain)%list. split.
      * rewrite Ht, <- app_assoc. reflexivity.
      * simpl. exists chain, (Raise e), []. rewrite app_nil_r. repeat split; auto.
Qed.

Lemma slots_trace_no_incorrect self seed indices evs res :
  slots_trace self seed indices evs res -> res <> Raise GeneratedDataIncorrect.
Proof.
  revert evs res. induction indices as [|i indices IH]; intros evs res H.
  - destruct H as [_ ->]. discriminate.
  - destruct H as (chain & final & evs' & _ & Hc & H).
    apply retry_chain_final in Hc. destruct final as [datum|e].
    + destruct H as (res' & Hs & ->). apply IH in Hs.
      destruct res' as [data|e]; [discriminate|]. simpl. exact Hs.
    + destruct H as [_ ->]. intros Heq. apply Hc. now inversion Heq.
Qed.

Lemma seedings_app (evs1 evs2 : list (event R V)) :
  seedings (evs1 ++ evs2) = (seedings evs1 ++ seedings evs2)%list.
Proof.
  induction evs1 as [|[a|before o after] evs1 IH]; simpl; [reflexivity| |exact IH].
  now rewrite IH.
Qed.

Lemma retry_chain_seedings self r chain final :
  retry_chain self r chain final -> seedings chain = [].
Proof.
  revert r. induction chain as [|ev chain IH]; intros r H; [reflexivity|].
  destruct ev as [a|before o after]; [destruct H|].
  destruct H as (_ & _ & H). destruct chain as [|ev' chain]; [reflexivity|].
  destruct H as [_ H]. exact (IH _ H).
Qed.

(** The random source is seeded once for every index that is reached, and
    every index is reached when the run returns data. *)
Lemma slots_trace_seedings self seed indices evs res :
  slots_trace self seed indices evs res ->
  exists reached rest,
    indices = (reached ++ rest)%list
    /\ seedings evs = map (fun i => slot_seed i seed) reached
    /\ (forall data, res = Ok data -> rest = []).
Proof.
  revert evs res. induction indices as [|i indices IH]; intros evs res H.
  - destruct H as [-> ->]. now exists [], [].
  - destruct H as (chain & final & evs' & -> & Hc & H).
    apply retry_chain_seedings in Hc. simpl. rewrite seedings_app, Hc. simpl.
    destruct final as [datum|e].
    + destruct H as (res' & Hs & ->).
      destruct (IH _ _ Hs) as (reached & rest & -> & Hseed & Hall).
      exists (i :: reached), rest. split; [reflexivity|]. split.
      * simpl. now rewrite Hseed.
      * intros data Hd. destruct res' as [data'|e]; [|discriminate]. eauto.
    + destruct H as [-> ->]. exists [i], indices. split; [reflexivity|].
      split; [reflexivity|]. discriminate.
Qed.

Lemma generate_slots_length fuel self seed indices w data w' :
  generate_slots fuel self seed indices w = Some (Ok data, w') ->
  length data = length indices.
Proof.
  revert w data. induction indices as [|i indices IH]; intros w data H; simpl in H.
  - now inversion H.
  - destruct (attempts fuel self _) as [[[datum|e] w1]|]; try discriminate.
    destruct (generate_slots fuel self seed indices w1) as [[[data'|e] w2]|] eqn:Hg;
      try discriminate.
    inversion H; subst. simpl. now rewrite (IH _ _ Hg).
Qed.

Lemma generate_slots_accept fuel self seed indices (K : nat -> nat)
    (data : nat -> gmap string V) w :
  (forall i, i ∈ indices ->
     rejects_then_accepts self (K i) (seed_rng (slot_seed i seed)) (data i)
     /\ (K i < fuel)%nat) ->
  exists w', generate_slots fuel self seed indices w = Some (Ok (map data indices), w').
Proof.
  revert w. induction indices as [|i indices IH]; intros w H; simpl; [eauto|].
  destruct (H i) as [Hacc Hlt]; [apply elem_of_cons; now left|].
  destruct (attempts_accept fuel self (random_seed seed_rng (slot_seed i seed) w)
              (K i) (data i) Hacc Hlt) as [w1 ->].
  destruct (IH w1) as [w2 ->]; [|eauto].
  intros j Hj. apply H. apply elem_of_cons. now right.
Qed.

(** *** Rendering *)

Lemma _render_text_map self (f : nat -> gmap string V) (g : nat -> rendered) indices :
  (forall i, i ∈ indices -> _render_text self [f i] = Ok [g i]) ->
  _render_text self (map f indices) = Ok (map g indices).
Proof.
  unfold Generation._render_text.
  set (t := match text self with
            | Some t => t
            | None => default_text subclasses (cls self)
            end).
  assert (forall data, match text self with
                       | Some t0 => render py_str t0 data
                       | None => render py_str (default_text subclasses (cls self)) data
                       end = render py_str t data) as Ht.
  { intros data. subst t. now destruct (text self). }
  intros H. rewrite Ht. induction indices as [|i indices IH]; [reflexivity|].
  simpl. pose proof (H i) as Hi. rewrite Ht in Hi. simpl in Hi.
  destruct (render_datum py_str t (f i)) as [r|e]; simpl in Hi.
  - assert (r = g i) as ->.
    { assert (i ∈ i :: indices) as Hin by (apply elem_of_cons; now left).
      specialize (Hi Hin). now inversion Hi. }
    simpl. rewrite IH; [reflexivity|].
    intros j Hj. apply H. apply elem_of_cons. now right.
  - assert (i ∈ i :: indices) as Hin by (apply elem_of_cons; now left).
    specialize (Hi Hin). discriminate.
Qed.

Lemma _render_text_length self data rs :
  _render_text self data = Ok rs -> length rs = length data.
Proof.
  unfold Generation._render_text. destruct (text self); apply render_length.
Qed.
End GenerationFacts.

Section GenerationTheorems.
Context {R V P : Type}.
Context (seed_rng : string -> R).
Context (py_str : V -> string).
Context (subclasses : string -> kind R V P).

Local Abbreviation attempts := (attempts subclasses).
Local Abbreviation generate_slots := (generate_slots seed_rng subclasses).
Local Abbreviation _generate_data := (_generate_data seed_rng subclasses).
Local Abbreviation retry_chain := (retry_chain subclasses).
Local Abbreviation slots_trace := (slots_trace seed_rng subclasses).
Local Abbreviation rejects_then_accepts := (rejects_then_accepts subclasses).
Local Abbreviation _render_text := (_render_text py_str subclasses).
Local Abbreviation then_render := (then_render py_str subclasses).
Local Abbreviation student_text := (student_text seed_rng py_str subclasses).
Local Abbreviation example_text := (example_text seed_rng py_str subclasses).
Local Abbreviation example_data := (example_data seed_rng subclasses).
Local Abbreviation default_text := (default_text subclasses).

Implicit Types (w : world R V) (self : Problem P).

Lemma then_render_inv self g out w' :
  then_render self g = Some (out, w') ->
  exists res, g = Some (res, w')
              /\ out = match res with
                       | Ok data => _render_text self data
                       | Raise e => Raise e
                       end.
Proof.
  destruct g as [[[data|e] w]|]; simpl; intros H; inversion H; subst; eauto.
Qed.

(** Generation is reproducible for one seed: the random source is seeded
    afresh for every subproblem, so neither the state it was left in nor
    the number of iterations allowed matters. *)
Lemma generate_data_reproducible self seed fuel1 fuel2 w1 w2 res1 w1' :
  _generate_data fuel1 self seed w1 = Some (res1, w1') ->
  (exists w2', _generate_data fuel1 self seed w2 = Some (res1, w2'))
  /\ (forall res2 w2',
        _generate_data fuel2 self seed w2 = Some (res2, w2') -> res1 = res2).
Proof.
  unfold Generation._generate_data.
  set (indices := seq 0 (number_of_subproblems self)).
  intros Hg1. split.
  - pose proof (generate_slots_ambient seed_rng subclasses fuel1 self seed indices w1 w2)
      as Ha.
    rewrite Hg1 in Ha. simpl in Ha.
    destruct (generate_slots fuel1 self seed indices w2) as [[res2 w2']|];
      [|discriminate].
    simpl in Ha. inversion Ha; subst res2. now exists w2'.
  - intros res2 w2' Hg2.
    apply (generate_slots_more_fuel seed_rng subclasses _ (Nat.max fuel1 fuel2)) in Hg1;
      [|lia].
    apply (generate_slots_more_fuel seed_rng subclasses _ (Nat.max fuel1 fuel2)) in Hg2;
      [|lia].
    pose proof (generate_slots_ambient seed_rng subclasses (Nat.max fuel1 fuel2)
                  self seed indices w1 w2) as Ha.
    rewrite Hg1, Hg2 in Ha. simpl in Ha. now inversion Ha.
Qed.

(** Passing [None] as the seed is passing the string [None]: the f-string
    formats it. *)
Lemma generate_slots_None fuel self indices w :
  generate_slots fuel self None indices w
  = generate_slots fuel self (Some "None") indices w.
Proof.
  revert w. induction indices as [|i indices IH]; intros w; [reflexivity|].
  simpl. change (slot_seed i None) with (slot_seed i (Some "None")).
  destruct (attempts fuel self _) as [[[datum|e] w1]|]; try reflexivity.
  now rewrite IH.
Qed.

(** Claim C1. For a fixed instance (class, text, number of subproblems,
    parameters) and a fixed student, two calls of [student_text] return the
    same list of rendered pairs. The two calls may find the random source in
    different states [w1] and [w2] (the second call of a pair finds what the
    first one left) and may be allowed different numbers of retries:
    whenever one call returns [out1], a call from any other state returns as
    well, and returns [out1]; and any call that returns at all returns
    [out1]. That the generator is a function of the instance and of the
    state of the random source alone is the type of [generate]. *)
Theorem student_text_deterministic self student fuel1 fuel2 w1 w2 out1 w1' :
  student_text fuel1 self student w1 = Some (out1, w1') ->
  (exists w2', student_text fuel1 self student w2 = Some (out1, w2'))
  /\ (forall out2 w2',
        student_text fuel2 self student w2 = Some (out2, w2') -> out1 = out2).
Proof.
  intros H. apply then_render_inv in H as (data1 & Hg & ->).
  destruct (generate_data_reproducible self _ fuel1 fuel2 w1 w2 _ _ Hg)
    as [[w2' Hg2] Hsame].
  split.
  - exists w2'. unfold Generation.student_text. rewrite Hg2. now destruct data1.
  - intros out2 w2'' H2. apply then_render_inv in H2 as (data2 & Hg2' & ->).
    now rewrite (Hsame _ _ Hg2').
Qed.

(** Claim C2, as the code has it. In example mode the seed handed on is
    [None], and the f-string formats it: subproblem [i] is seeded with the
    string [i-None], exactly as if the seed were the string [None]. So the
    random source is seeded and previews are reproducible: whenever one call
    of [example_text] returns [out1], a call from any other state of the
    random source returns [out1] too, and any call that returns at all
    returns [out1]. *)
Theorem example_text_seeded_reproducible self fuel1 fuel2 w1 w2 out1 w1' :
  example_text fuel1 self w1 = Some (out1, w1') ->
  example_data fuel1 self w1 = _generate_data fuel1 self (Some "None") w1
  /\ (forall i, slot_seed i None = pretty i ++ "-None")
  /\ (exists w2', example_text fuel1 self w2 = Some (out1, w2'))
  /\ (forall out2 w2',
        example_text fuel2 self w2 = Some (out2, w2') -> out1 = out2).
Proof.
  intros H. split; [apply generate_slots_None|]. split; [reflexivity|].
  apply then_render_inv in H as (data1 & Hg & ->).
  destruct (generate_data_reproducible self None fuel1 fuel2 w1 w2 _ _ Hg)
    as [[w2' Hg2] Hsame].
  split.
  - exists w2'. unfold Generation.example_text, Generation.example_data.
    rewrite Hg2. now destruct data1.
  - intros out2 w2'' H2. apply then_render_inv in H2 as (data2 & Hg2' & ->).
    now rewrite (Hsame _ _ Hg2').
Qed.

(** Claim C3. A run of [_generate_data] that returns has added to the
    trace, for each subproblem index in turn, one call of [random.seed] with
    the string made of the index, a dash and the seed, followed by the calls
    of [generate] for that subproblem: the first of them starts in the state
    just seeded, every further one follows a [GeneratedDataIncorrect] and
    starts in the state the call before it left, with no call of
    [random.seed] in between, and the last one does not end with
    [GeneratedDataIncorrect]. When the run returns data, the strings the
    random source was seeded with are those of the indices, one each,
    whatever the number of retries. The run itself never ends with
    [GeneratedDataIncorrect]. *)
Theorem generate_data_reseeds_per_subproblem fuel self seed w res w' :
  _generate_data fuel self seed w = Some (res, w') ->
  (exists evs,
      trace w' = (trace w ++ evs)%list
      /\ slots_trace self seed (seq 0 (number_of_subproblems self)) evs res
      /\ (forall data, res = Ok data ->
            seedings evs
            = map (fun i => slot_seed i seed) (seq 0 (number_of_subproblems self))))
  /\ (forall i, slot_seed i seed = pretty i ++ "-" ++ str_seed seed)
  /\ res <> Raise GeneratedDataIncorrect.
Proof.
  intros H. apply generate_slots_trace in H as (evs & Ht & Hs).
  split; [|split; [reflexivity|]].
  - exists evs. split; [exact Ht|]. split; [exact Hs|].
    intros data Hd.
    destruct (slots_trace_seedings seed_rng subclasses _ _ _ _ _ Hs)
      as (reached & rest & Hsplit & Hseed & Hall).
    rewrite (Hall data Hd), app_nil_r in Hsplit. now rewrite Hsplit.
  - exact (slots_trace_no_incorrect seed_rng subclasses _ _ _ _ _ Hs).
Qed.

(** Claim C4. Suppose that for every index [i] below the number of
    subproblems the generator, started in the state seeded for [i], rejects
    [K i] draws and accepts the next one with [data i], and that [data i]
    renders to [texts i]. Then [student_text], allowed more than [K i]
    iterations for every [i], returns the list of [texts 0] up to
    [texts (n - 1)]: one rendered pair per subproblem, in the order of the
    subproblems, however many draws were rejected. Its length is the number
    of subproblems, and so is the length of every list that any call of
    [student_text] returns. *)
Theorem student_text_one_per_subproblem self student
    (K : nat -> nat) (data : nat -> gmap string V) (texts : nat -> rendered)
    fuel w :
  let n := number_of_subproblems self in
  let seed := Some (str_pk (id self) ++ "-" ++ str_pk (student_id student)) in
  (forall i, (i < n)%nat ->
     rejects_then_accepts self (K i) (seed_rng (slot_seed i seed)) (data i)) ->
  (forall i, (i < n)%nat -> _render_text self [data i] = Ok [texts i]) ->
  (forall i, (i < n)%nat -> (K i < fuel)%nat) ->
  (exists w', student_text fuel self student w = Some (Ok (map texts (seq 0 n)), w'))
  /\ length (map texts (seq 0 n)) = n
  /\ (forall fuel' w0 out w0',
        student_text fuel' self student w0 = Some (Ok out, w0') -> length out = n).
Proof.
  intros n seed Hacc Hrender Hfuel. split; [|split].
  - destruct (generate_slots_accept seed_rng subclasses fuel self seed (seq 0 n) K data w)
      as [w' Hg].
    { intros i Hi. apply elem_of_seq in Hi. split; [apply Hacc | apply Hfuel]; lia. }
    exists w'. unfold Generation.student_text, Generation._generate_data.
    fold n. fold seed. rewrite Hg. simpl. f_equal. f_equal.
    apply _render_text_map. intros i Hi. apply elem_of_seq in Hi. apply Hrender. lia.
  - now rewrite length_map, length_seq.
  - intros fuel' w0 out w0' H. apply then_render_inv in H as (res & Hg & Hout).
    destruct res as [ds|e]; [|discriminate].
    apply generate_slots_length in Hg. rewrite length_seq in Hg.
    symmetry in Hout. apply _render_text_length in Hout. fold n in Hg. lia.
Qed.

(** Claim C5, as the code has it. An instance with a text renders with that
    text; an instance without one renders with the text that [default_text]
    builds from the default instruction and solution of its class. When
    there is no text and the class has neither default, rendering at least
    one datum raises [TypeError] (the substitution is applied to [None]),
    and rendering no datum at all returns the empty list. *)
Theorem render_text_template_resolution self data :
  (forall t, text self = Some t -> _render_text self data = render py_str t data)
  /\ (text self = None ->
      _render_text self data = render py_str (default_text (cls self)) data
      /\ instruction (default_text (cls self))
         = default_instruction (kind_of subclasses (cls self))
      /\ solution (default_text (cls self))
         = default_solution (kind_of subclasses (cls self)))
  /\ (text self = None ->
      default_instruction (kind_of subclasses (cls self)) = None ->
      default_solution (kind_of subclasses (cls self)) = None ->
      _render_text self data = match data with
                               | [] => Ok []
                               | _ :: _ => Raise TypeError
                               end).
Proof.
  unfold Generation._render_text. split; [|split].
  - now intros t ->.
  - now intros ->.
  - intros -> Hi Hs. destruct data as [|datum data]; [reflexivity|].
    simpl. unfold render_datum. simpl. now rewrite Hi.
Qed.
End GenerationTheorems.

(** Claim C1 on the [Dice] problem, called with the random source idle and
    used. *)
Lemma student_text_deterministic_witness :
  (exists w2', student_text Demo.seed_rng Demo.py_str Demo.subclasses 5
                 Demo.dice_problem Demo.student Demo.used
               = Some (Ok (map Demo.dice_texts [0; 1]), w2'))
  /\ (forall out2 w2',
        student_text Demo.seed_rng Demo.py_str Demo.subclasses 9
          Demo.dice_problem Demo.student Demo.used
        = Some (out2, w2') ->
        Ok (map Demo.dice_texts [0; 1]) = out2).
Proof.
  eapply (student_text_deterministic Demo.seed_rng Demo.py_str Demo.subclasses
            Demo.dice_problem Demo.student 5 9 Demo.idle Demo.used).
  vm_compute. reflexivity.
Defined.

(** Claim C2, as the code has it, on the previews of the [Dice] problem. *)
Lemma example_text_seeded_reproducible_witness :
  example_data Demo.seed_rng Demo.subclasses 5 Demo.dice_problem Demo.idle
  = _generate_data Demo.seed_rng Demo.subclasses 5 Demo.dice_problem (Some "None")
      Demo.idle
  /\ (forall i, slot_seed i None = pretty i ++ "-None")
  /\ (exists w2', example_text Demo.seed_rng Demo.py_str Demo.subclasses 5
                    Demo.dice_problem Demo.used
                  = Some (Ok Demo.dice_preview, w2'))
  /\ (forall out2 w2',
        example_text Demo.seed_rng Demo.py_str Demo.subclasses 9
          Demo.dice_problem Demo.used = Some (out2, w2') ->
        Ok Demo.dice_preview = out2).
Proof.
  eapply (example_text_seeded_reproducible Demo.seed_rng Demo.py_str Demo.subclasses
            Demo.dice_problem 5 9 Demo.idle Demo.used).
  vm_compute. reflexivity.
Defined.

(** Against claim C2 as stated: the two previews of the [Dice] problem, taken
    with the random source in two different states, are the same list; and
    there is no instance, generator and pair of states of the random source
    for which two calls of [example_text] return different results. *)
Lemma example_text_calls_agree :
  (fst <$> example_text Demo.seed_rng Demo.py_str Demo.subclasses 5
             Demo.dice_problem Demo.idle
   = Some (Ok Demo.dice_preview)
   /\ fst <$> example_text Demo.seed_rng Demo.py_str Demo.subclasses 5
                Demo.dice_problem Demo.used
      = Some (Ok Demo.dice_preview))
  /\ ~ (exists (R V P : Type) (seed_rng : string -> R) (py_str : V -> string)
               (subclasses : string -> kind R V P) (self : Problem P)
               (fuel1 fuel2 : nat) (w1 w2 w1' w2' : world R V)
               (out1 out2 : result (list rendered)),
           example_text seed_rng py_str subclasses fuel1 self w1 = Some (out1, w1')
           /\ example_text seed_rng py_str subclasses fuel2 self w2 = Some (out2, w2')
           /\ out1 <> out2).
Proof.
  split; [split; vm_compute; reflexivity|].
  intros (R & V & P & seed & str & subs & self & fuel1 & fuel2 & w1 & w2 & w1' & w2'
          & out1 & out2 & H1 & H2 & Hne).
  apply Hne.
  apply then_render_inv in H1 as (data1 & Hg1 & ->).
  apply then_render_inv in H2 as (data2 & Hg2 & ->).
  now rewrite (proj2 (generate_data_reproducible seed subs self None fuel1 fuel2 w1 w2
                        data1 w1' Hg1) data2 w2' Hg2).
Qed.

(** Claim C3 on the run of the [Dice] problem for the seed [1-1]. *)
Lemma generate_data_reseeds_witness :
  _generate_data Demo.seed_rng Demo.subclasses 5 Demo.dice_problem (Some "1-1") Demo.idle
  = Some (Ok [Demo.dice_data 0; Demo.dice_data 1], Demo.dice_run)
  /\ (exists evs,
         trace Demo.dice_run = (trace Demo.idle ++ evs)%list
         /\ slots_trace Demo.seed_rng Demo.subclasses Demo.dice_problem (Some "1-1")
              (seq 0 (number_of_subproblems Demo.dice_problem)) evs
              (Ok [Demo.dice_data 0; Demo.dice_data 1])
         /\ (forall data, Ok [Demo.dice_data 0; Demo.dice_data 1] = Ok data ->
               seedings evs
               = map (fun i => slot_seed i (Some "1-1"))
                   (seq 0 (number_of_subproblems Demo.dice_problem))))
  /\ (forall i, slot_seed i (Some "1-1") = pretty i ++ "-" ++ str_seed (Some "1-1"))
  /\ Ok [Demo.dice_data 0; Demo.dice_data 1] <> Raise GeneratedDataIncorrect.
Proof.
  split; [vm_compute; reflexivity|].
  apply (generate_data_reseeds_per_subproblem Demo.seed_rng Demo.subclasses 5
           Demo.dice_problem (Some "1-1") Demo.idle).
  vm_compute. reflexivity.
Defined.

(** Claim C4 on the [Dice] problem, whose second subproblem rejects three
    draws. *)
Lemma student_text_one_per_subproblem_witness :
  (exists w', student_text Demo.seed_rng Demo.py_str Demo.subclasses 5
                Demo.dice_problem Demo.student Demo.idle
              = Some (Ok (map Demo.dice_texts (seq 0 2)), w'))
  /\ length (map Demo.dice_texts (seq 0 2)) = 2
  /\ (forall fuel' w0 out w0',
        student_text Demo.seed_rng Demo.py_str Demo.subclasses fuel'
          Demo.dice_problem Demo.student w0
        = Some (Ok out, w0') -> length out = 2).
Proof.
  apply (student_text_one_per_subproblem Demo.seed_rng Demo.py_str Demo.subclasses
           Demo.dice_problem Demo.student
           Demo.dice_rejections Demo.dice_data Demo.dice_texts 5 Demo.idle).
  - intros i Hi. destruct i as [|[|i]]; [vm_compute; reflexivity | | simpl in Hi; lia].
    vm_compute. repeat split; reflexivity.
  - intros i Hi. destruct i as [|[|i]]; [vm_compute; reflexivity.. | simpl in Hi; lia].
  - intros i Hi. destruct i as [|[|i]]; simpl in *; lia.
Defined.

(** Claim C5, as the code has it, on the [Bare] and the [Dice] problem. *)
Lemma render_text_template_resolution_witness :
  _render_text Demo.py_str Demo.subclasses Demo.bare_problem [Demo.dice_data 0]
  = Raise TypeError
  /\ _render_text Demo.py_str Demo.subclasses Demo.bare_problem [] = Ok []
  /\ _render_text Demo.py_str Demo.subclasses Demo.dice_problem [Demo.dice_data 0]
     = render Demo.py_str (default_text Demo.subclasses (SubclassModel "Dice"))
         [Demo.dice_data 0].
Proof.
  split; [|split].
  - exact (proj2 (proj2 (render_text_template_resolution Demo.py_str Demo.subclasses
                           Demo.bare_problem [Demo.dice_data 0]))
             eq_refl eq_refl eq_refl).
  - exact (proj2 (proj2 (render_text_template_resolution Demo.py_str Demo.subclasses
                           Demo.bare_problem []))
             eq_refl eq_refl eq_refl).
  - exact (proj1 (proj1 (proj2 (render_text_template_resolution Demo.py_str Demo.subclasses
                                  Demo.dice_problem [Demo.dice_data 0])) eq_refl)).
Defined.

(** Against claim C5 as stated: the [Bare] problem has no text and its class
    has no default texts, yet rendering the empty list of data returns the
    empty list, and so does its preview, since it has no subproblems. *)
Lemma render_without_template_succeeds_on_no_data :
  text Demo.bare_problem = None
  /\ default_instruction (kind_of Demo.subclasses (cls Demo.bare_problem)) = None
  /\ default_solution (kind_of Demo.subclasses (cls Demo.bare_problem)) = None
  /\ _render_text Demo.py_str Demo.subclasses Demo.bare_problem [] = Ok []
  /\ fst <$> example_text Demo.seed_rng Demo.py_str Demo.subclasses 1
               Demo.bare_problem Demo.idle
     = Some (Ok []).
Proof.
  repeat split; vm_compute; reflexivity.
Qed.


(* ===================================================================== *)
(** * Properties of validation and copying                                *)
(* ===================================================================== *)

Section StoreFacts.
Context {P : Type}.
Implicit Types (st : state P) (self : Problem P) (l : nat).

Lemma bindM_load {B} l st self (k : Problem P -> M P B) :
  heap st !! l = Some self -> bindM (load l) k st = k self st.
Proof. intros H. unfold bindM, load. now rewrite H. Qed.

Lemma bindM_store {B} l o st (k : unit -> M P B) :
  bindM (store l o) k st = k tt {| heap := <[l := o]> (heap st); db := db st |}.
Proof. reflexivity. Qed.

Lemma bindM_get_db {B} st (k : database P -> M P B) :
  bindM get_db k st = k (db st) st.
Proof. reflexivity. Qed.

Lemma bindM_put_db {B} d st (k : unit -> M P B) :
  bindM (put_db d) k st = k tt {| heap := heap st; db := d |}.
Proof. reflexivity. Qed.

Lemma get_for_model_class (c : ContentType) : get_for_model (model_class c) = c.
Proof. now destruct c. Qed.

(** [clean] seen as a function of the instance alone. *)
Lemma clean_run l st self :
  heap st !! l = Some self ->
  clean l st =
  if issubclass_Problem (cls self) then
    Some (Raise (ValidationError "Problems must have a non-trivial generator"), st)
  else
    let st' := {| heap := <[l := set_content_type (get_for_model (cls self)) self]> (heap st);
                  db := db st |} in
    match text self with
    | Some t =>
        if decide (get_for_model (cls self) = text_content_type t) then Some (Ok tt, st')
        else Some (Raise (ValidationError
                            "Generators of the problem and its text must match"), st')
    | None => Some (Ok tt, st')
    end.
Proof.
  intros H. unfold clean. rewrite (bindM_load _ _ _ _ H).
  destruct (issubclass_Problem (cls self)); [reflexivity|].
  rewrite bindM_store.
  rewrite (bindM_load l _ (set_content_type (get_for_model (cls self)) self))
    by (simpl; apply lookup_insert_eq).
  simpl. destruct (text self) as [t|]; [|reflexivity].
  now destruct (decide (get_for_model (cls self) = text_content_type t)).
Qed.

Lemma save_run l st self :
  heap st !! l = Some self ->
  save l st =
  let self' := set_content_type (get_for_model (cls self)) self in
  let i := match id self with Some i => i | None => sequence (db st) end in
  Some (Ok tt,
        {| heap := <[l := set_adding false (set_id (Some i) self')]> (heap st);
           db := {| problems := <[i := row_of self']> (problems (db st));
                    children :=
                      match cls self with
                      | SubclassModel name =>
                          <[(name, i) := parameters self]> (children (db st))
                      | ProblemModel => children (db st)
                      end;
                    sequence := match id self with
                                | Some i => Nat.max (sequence (db st)) (S i)
                                | None => S (sequence (db st))
                                end |} |}).
Proof.
  intros H. unfold save. rewrite (bindM_load _ _ _ _ H), bindM_store.
  unfold Model_save.
  rewrite (bindM_load l _ (set_content_type (get_for_model (cls self)) self))
    by (simpl; apply lookup_insert_eq).
  rewrite bindM_get_db, bindM_put_db. unfold store. simpl.
  now rewrite insert_insert_eq.
Qed.
End StoreFacts.



(** [save] does not call [clean]: an instance of [Problem] itself, which
    [clean] rejects, is written to the parent table all the same, with the
    content type of its class. *)
Lemma save_does_not_validate :
  exists st',
    save 2 DemoStore.session = Some (Ok tt, st')
    /\ problems (db st') !! 3
       = Some {| row_document := 1;
                 row_content_type := get_for_model ProblemModel;
                 row_text := None;
                 row_number_of_subproblems := 1 |}.
Proof.
  eexists. split; [vm_compute; reflexivity|]. vm_compute. reflexivity.
Qed.

Section CopyFacts.
Context {P : Type}.
Implicit Types (st : state P) (self o : Problem P) (l : nat).

Lemma bindM_ok {A B} (m : M P A) (k : A -> M P B) st a st' :
  m st = Some (Ok a, st') -> bindM m k st = k a st'.
Proof. intros H. unfold bindM. now rewrite H. Qed.

(** [copy] after its call of [downcast], on the instance [o] at [l']. *)
Lemma copy_after_downcast l l' target st st1 o :
  downcast l st = Some (Ok l', st1) -> heap st1 !! l' = Some o ->
  copy l target st =
  Some (Ok l',
        {| heap := <[l' := duplicate_of o target (sequence (db st1))]> (heap st1);
           db := inserted (db st1) (duplicate_of o target (sequence (db st1))) |}).
Proof.
  intros Hd Ho. unfold copy. rewrite (bindM_ok _ _ _ _ _ Hd).
  rewrite (bindM_load _ _ _ _ Ho), bindM_store.
  rewrite (bindM_load l' _ (set_document target o)) by (simpl; apply lookup_insert_eq).
  rewrite bindM_store.
  rewrite (bindM_load l' _ (set_id None (set_document target o)))
    by (simpl; apply lookup_insert_eq).
  rewrite bindM_store.
  erewrite bindM_ok; [|apply save_run; simpl; apply lookup_insert_eq].
  unfold ret. simpl. rewrite !insert_insert_eq. reflexivity.
Qed.

Lemma downcast_same l st self :
  heap st !! l = Some self -> model_class (content_type self) = cls self ->
  downcast l st = Some (Ok l, st).
Proof.
  intros H Hc. unfold downcast. rewrite (bindM_load _ _ _ _ H).
  now destruct (decide (model_class (content_type self) = cls self)).
Qed.

Lemma downcast_fetch l st self name i p :
  heap st !! l = Some self -> model_class (content_type self) <> cls self ->
  model_class (content_type self) = SubclassModel name ->
  id self = Some i -> problems (db st) !! i = Some (row_of self) ->
  children (db st) !! (name, i) = Some p ->
  downcast l st =
  Some (Ok (fresh (dom (heap st))),
        {| heap := <[fresh (dom (heap st)) :=
                       {| cls := SubclassModel name; id := Some i;
                          document := document self;
                          content_type := content_type self; text := text self;
                          number_of_subproblems := number_of_subproblems self;
                          parameters := p; adding := false |}]> (heap st);
           db := db st |}).
Proof.
  intros H Hne Hn Hi Hrow Hchild. unfold downcast. rewrite (bindM_load _ _ _ _ H).
  destruct (decide (model_class (content_type self) = cls self)); [contradiction|].
  unfold get_object_for_this_type. rewrite Hn, Hi, bindM_get_db, Hrow, Hchild.
  reflexivity.
Qed.

(** Inserting under the next key of the sequence touches no key in use and
    keeps the sequence ahead. *)
Lemma inserted_frame (d : database P) o :
  sequence_ahead d ->
  problems d !! sequence d = None
  /\ (forall name, children d !! (name, sequence d) = None)
  /\ problems (inserted d o) !! sequence d = Some (row_of o)
  /\ (forall name, cls o = SubclassModel name ->
        children (inserted d o) !! (name, sequence d) = Some (parameters o))
  /\ (forall k, k <> sequence d -> problems (inserted d o) !! k = problems d !! k)
  /\ (forall name k, k <> sequence d ->
        children (inserted d o) !! (name, k) = children d !! (name, k))
  /\ sequence_ahead (inserted d o).
Proof.
  intros [Hp Hc].
  assert (Hfresh : problems d !! sequence d = None).
  { apply eq_None_not_Some. intros H. apply Hp in H. lia. }
  assert (Hfresh' : forall name, children d !! (name, sequence d) = None).
  { intros name. apply eq_None_not_Some. intros H. apply Hc in H. lia. }
  assert (Hframe : forall name k, k <> sequence d ->
            children (inserted d o) !! (name, k) = children d !! (name, k)).
  { intros name k Hk. unfold inserted. simpl.
    destruct (cls o) as [|name']; [reflexivity|].
    apply lookup_insert_ne. congruence. }
  split; [exact Hfresh|]. split; [exact Hfresh'|].
  split; [apply lookup_insert_eq|].
  split; [intros name Hn; unfold inserted; simpl; rewrite Hn; apply lookup_insert_eq|].
  split; [intros k Hk; apply lookup_insert_ne; congruence|].
  split; [exact Hframe|].
  split.
  - intros k Hk. simpl in *. destruct (decide (k = sequence d)) as [->|Hne]; [lia|].
    rewrite lookup_insert_ne in Hk by congruence. apply Hp in Hk. lia.
  - intros name k Hk. simpl sequence.
    destruct (decide (k = sequence d)) as [->|Hne]; [lia|].
    rewrite (Hframe name k Hne) in Hk. apply Hc in Hk. lia.
Qed.

(** Claim C7, as the code has it. Let [self], at address [l], be the
    instance of a saved problem [i]. Then [copy l target] returns the
    address of an instance [new] with a key [j] that no row carried before,
    so other than [i]; [new] and the row saved under [j] have the document
    [target] and the content type, text and number of subproblems of
    [self], and the child row of [j] is that of [i], whose parameters [new]
    carries. Every other row of both tables is as before, the row of [i]
    among them, and so is every object other than the one returned. Rows and
    instances have no field for rendered text, so none is copied. The
    object returned is not always a new one: when [self] is already of the
    class of its content type, it is [self] that is returned, turned into
    the copy; otherwise the object returned is at an address that held
    nothing, and [self] is as it was. *)
Theorem copy_duplicates (l target : nat) st self (i : nat) :
  heap st !! l = Some self -> persisted (db st) self i -> sequence_ahead (db st) ->
  exists l' st' new j,
    copy l target st = Some (Ok l', st')
    /\ heap st' !! l' = Some new
    /\ id new = Some j /\ j <> i
    /\ problems (db st) !! j = None
    /\ (forall name, children (db st) !! (name, j) = None)
    /\ document new = target
    /\ cls new = model_class (content_type self)
    /\ content_type new = content_type self
    /\ text new = text self
    /\ number_of_subproblems new = number_of_subproblems self
    /\ problems (db st') !! j
       = Some {| row_document := target;
                 row_content_type := content_type self;
                 row_text := text self;
                 row_number_of_subproblems := number_of_subproblems self |}
    /\ (forall name, model_class (content_type self) = SubclassModel name ->
          is_Some (children (db st) !! (name, i))
          /\ children (db st') !! (name, j) = children (db st) !! (name, i))
    /\ (forall k, k <> j -> problems (db st') !! k = problems (db st) !! k)
    /\ (forall name k, k <> j ->
          children (db st') !! (name, k) = children (db st) !! (name, k))
    /\ problems (db st') !! i = Some (row_of self)
    /\ (forall k, k <> l' -> heap st' !! k = heap st !! k)
    /\ sequence_ahead (db st')
    /\ adding new = false
    /\ (forall name, model_class (content_type self) = SubclassModel name ->
          children (db st) !! (name, i) = Some (parameters new))
    /\ (if decide (model_class (content_type self) = cls self)
        then l' = l
        else l' <> l /\ heap st !! l' = None /\ heap st' !! l = Some self).
Proof.
  intros Hl (Hid & Hrow & Hkind) Hseq.
  assert (Hi : i <> sequence (db st)).
  { destruct Hseq as [Hp _]. assert (is_Some (problems (db st) !! i)) as H by eauto.
    apply Hp in H. lia. }
  destruct (decide (model_class (content_type self) = cls self)) as [Hsame|Hdiff].
  - pose proof (downcast_same l st self Hl Hsame) as Hd.
    rewrite (copy_after_downcast l l target st st self Hd Hl).
    set (new := duplicate_of self target (sequence (db st))).
    destruct (inserted_frame (db st) new Hseq)
      as (Hf & Hf' & Hnew & Hchild & Hfp & Hfc & Hseq').
    exists l, {| heap := <[l := new]> (heap st); db := inserted (db st) new |},
      new, (sequence (db st)).
    split; [reflexivity|]. split; [simpl; apply lookup_insert_eq|].
    split; [reflexivity|]. split; [congruence|]. split; [exact Hf|].
    split; [exact Hf'|]. split; [reflexivity|]. split; [now symmetry|].
    split; [simpl; rewrite <- Hsame; apply get_for_model_class|].
    split; [reflexivity|]. split; [reflexivity|].
    split.
    { simpl db. rewrite Hnew. unfold row_of. simpl.
      now rewrite <- Hsame, get_for_model_class. }
    split.
    { intros name Hn. rewrite Hn in Hkind. destruct Hkind as [Hsome Hsync].
      split; [exact Hsome|]. simpl db.
      rewrite (Hchild name) by (simpl; congruence).
      symmetry. apply Hsync. congruence. }
    split; [exact Hfp|]. split; [exact Hfc|].
    split; [simpl db; rewrite (Hfp i Hi); exact Hrow|].
    split; [intros k Hk; simpl; apply lookup_insert_ne; congruence|].
    split; [exact Hseq'|]. split; [reflexivity|].
    split; [|reflexivity].
    intros name Hn. rewrite Hn in Hkind. destruct Hkind as [_ Hsync].
    apply Hsync. congruence.
  - destruct (model_class (content_type self)) as [|name] eqn:Hn; [congruence|].
    destruct Hkind as [[p Hp] _]. rewrite <- Hn in Hdiff.
    pose proof (downcast_fetch l st self name i p Hl Hdiff Hn Hid Hrow Hp) as Hd.
    set (l' := fresh (dom (heap st))) in *.
    set (o := {| cls := SubclassModel name; id := Some i; document := document self;
                 content_type := content_type self; text := text self;
                 number_of_subproblems := number_of_subproblems self;
                 parameters := p; adding := false |}) in *.
    rewrite (copy_after_downcast l l' target st _ o Hd)
      by (simpl; apply lookup_insert_eq).
    simpl db. set (new := duplicate_of o target (sequence (db st))).
    destruct (inserted_frame (db st) new Hseq)
      as (Hf & Hf' & Hnew & Hchild & Hfp & Hfc & Hseq').
    assert (Hfresh : heap st !! l' = None) by (apply not_elem_of_dom, is_fresh).
    assert (Hne : l' <> l) by (intros Heq; rewrite Heq in Hfresh; congruence).
    eexists l', _, new, (sequence (db st)).
    split; [reflexivity|]. split; [simpl; apply lookup_insert_eq|].
    split; [reflexivity|]. split; [congruence|]. split; [exact Hf|].
    split; [exact Hf'|]. split; [reflexivity|]. split; [reflexivity|].
    split; [simpl; rewrite <- Hn; apply get_for_model_class|].
    split; [reflexivity|]. split; [reflexivity|].
    split.
    { simpl db. rewrite Hnew. unfold row_of. simpl.
      now rewrite <- Hn, get_for_model_class. }
    split.
    { intros name' Hn'. inversion Hn'; subst name'. split; [eauto|]. simpl db.
      rewrite (Hchild name) by reflexivity. now rewrite Hp. }
    split; [exact Hfp|]. split; [exact Hfc|].
    split; [simpl db; rewrite (Hfp i Hi); exact Hrow|].
    split; [intros k Hk; simpl; rewrite !lookup_insert_ne by congruence; reflexivity|].
    split; [exact Hseq'|]. split; [reflexivity|].
    split; [intros name' Hn'; inversion Hn'; subst name'; exact Hp|].
    split; [exact Hne|]. split; [exact Hfresh|].
    simpl. rewrite !lookup_insert_ne by exact Hne. exact Hl.
Qed.

(** What becomes of the object [copy] was called on. An instance that is
    already of the class of its content type is itself turned into the
    copy and returned; otherwise the copy is a new object and the one the
    method was called on is left as it was. In both cases the row of the
    problem it was loaded from stays. *)
Lemma copy_receiver (l target : nat) st self (i : nat) :
  heap st !! l = Some self -> persisted (db st) self i -> sequence_ahead (db st) ->
  exists l' st',
    copy l target st = Some (Ok l', st')
    /\ if decide (model_class (content_type self) = cls self)
       then l' = l
            /\ heap st' !! l = Some (duplicate_of self target (sequence (db st)))
       else l' <> l /\ heap st' !! l = Some self.
Proof.
  intros Hl (Hid & Hrow & Hkind) Hseq.
  destruct (decide (model_class (content_type self) = cls self)) as [Hsame|Hdiff].
  - pose proof (downcast_same l st self Hl Hsame) as Hd.
    rewrite (copy_after_downcast l l target st st self Hd Hl).
    eexists _, _. split; [reflexivity|]. split; [reflexivity|].
    simpl. apply lookup_insert_eq.
  - destruct (model_class (content_type self)) as [|name] eqn:Hn; [congruence|].
    destruct Hkind as [[p Hp] _]. rewrite <- Hn in Hdiff.
    pose proof (downcast_fetch l st self name i p Hl Hdiff Hn Hid Hrow Hp) as Hd.
    erewrite (copy_after_downcast l _ target st _ _ Hd)
      by (simpl; apply lookup_insert_eq).
    assert (Hne : fresh (dom (heap st)) <> l).
    { intros Heq. pose proof (is_fresh (dom (heap st))) as Hfresh.
      rewrite Heq in Hfresh. apply Hfresh. apply elem_of_dom. eauto. }
    eexists _, _. split; [reflexivity|]. split; [exact Hne|].
    simpl. rewrite !lookup_insert_ne by exact Hne. exact Hl.
Qed.
End CopyFacts.

(** The sequence of the example database is ahead of its keys. *)
Lemma tables_sequence_ahead : sequence_ahead DemoStore.tables.
Proof.
  split.
  - intros k [r Hr]. unfold DemoStore.tables in Hr. simpl in Hr.
    apply lookup_insert_Some in Hr as [[<- _]|[_ Hr]]; [simpl; lia|].
    apply lookup_singleton_Some in Hr as [<- _]. simpl. lia.
  - intros name k [r Hr]. unfold DemoStore.tables in Hr. simpl in Hr.
    apply lookup_insert_Some in Hr as [[Heq _]|[_ Hr]]; [inversion Heq; simpl; lia|].
    apply lookup_singleton_Some in Hr as [Heq _]. inversion Heq. simpl. lia.
Defined.

(** Against claim C7 as stated: copying the [Dice] problem through the
    instance of its own class, held at address 0, returns no new entity and
    does not leave the source as it was. The object returned is the one the
    method was called on, which now carries the new key 3 and the document
    7. *)
Lemma copy_turns_receiver_into_copy :
  exists st',
    copy 0 7 DemoStore.session = Some (Ok 0, st')
    /\ heap DemoStore.session !! 0 = Some Demo.dice_problem
    /\ heap st' !! 0 = Some (set_document 7 (set_id (Some 3) Demo.dice_problem))
    /\ heap st' !! 0 <> heap DemoStore.session !! 0.
Proof.
  eexists. split; [vm_compute; reflexivity|]. split; [reflexivity|].
  split; [vm_compute; reflexivity|]. vm_compute. discriminate.
Qed.

(** Claim C7 on the [Dice] problem, copied through the instance of the
    parent class, which stays as it was, and through the instance of its own
    class, which becomes the copy. *)
Lemma copy_duplicates_witness :
  (exists l' st' new j,
      copy 1 7 DemoStore.session = Some (Ok l', st')
      /\ heap st' !! l' = Some new
      /\ id new = Some j /\ j <> 1
      /\ document new = 7
      /\ problems (db st') !! j
         = Some {| row_document := 7;
                   row_content_type := get_for_model (SubclassModel "Dice");
                   row_text := None;
                   row_number_of_subproblems := 2 |}
      /\ problems (db st') !! 1 = Some (row_of Demo.dice_problem)
      /\ l' <> 1
      /\ heap DemoStore.session !! l' = None
      /\ heap st' !! 1 = Some DemoStore.parent_handle)
  /\ (exists st' new j,
        copy 0 7 DemoStore.session = Some (Ok 0, st')
        /\ heap st' !! 0 = Some new
        /\ id new = Some j /\ j <> 1
        /\ document new = 7
        /\ problems (db st') !! 1 = Some (row_of Demo.dice_problem)).
Proof.
  split.
  - destruct (copy_duplicates 1 7 DemoStore.session DemoStore.parent_handle 1) as
      (l' & st' & new & j & H1 & H2 & H3 & H4 & _ & _ & H5 & _ & _ & _ & _ & H6 & _ & _ & _
       & H7 & _ & _ & _ & _ & H8).
    + reflexivity.
    + split; [reflexivity|]. split; [reflexivity|]. simpl.
      split; [eexists; reflexivity | discriminate].
    + exact tables_sequence_ahead.
    + destruct (decide (model_class (content_type DemoStore.parent_handle)
                        = cls DemoStore.parent_handle)) as [Heq|_]; [discriminate Heq|].
      destruct H8 as (H8 & H9 & H10).
      exists l', st', new, j. repeat split; assumption.
  - destruct (copy_duplicates 0 7 DemoStore.session Demo.dice_problem 1) as
      (l' & st' & new & j & H1 & H2 & H3 & H4 & _ & _ & H5 & _ & _ & _ & _ & _ & _ & _ & _
       & H7 & _ & _ & _ & _ & H8).
    + reflexivity.
    + split; [reflexivity|]. split; [reflexivity|]. simpl.
      split; [eexists; reflexivity | reflexivity].
    + exact tables_sequence_ahead.
    + destruct (decide (model_class (content_type Demo.dice_problem)
                        = cls Demo.dice_problem)) as [_|Hne]; [|now destruct Hne].
      subst l'. exists st', new, j. repeat split; assumption.
Defined.

(* ===================================================================== *)
(** * Further properties of templates                                     *)
(* ===================================================================== *)

Section TemplateOutcomes.
Context {V : Type} (py_str : V -> string).
Implicit Types (d : gmap string V) (segs : list segment).

(** Filling fails only for a placeholder without a value. *)
Lemma fill_raise d segs e :
  fill py_str d segs = Raise e ->
  exists name, e = KeyError name /\ name ∈ placeholders segs /\ d !! name = None.
Proof.
  induction segs as [|seg segs IH]; [discriminate|]. simpl.
  destruct seg as [s| |name|name]; simpl.
  - destruct (fill py_str d segs) as [out|e'] eqn:Hf; [discriminate|].
    intros H. inversion H; subst e'. exact (IH eq_refl).
  - destruct (fill py_str d segs) as [out|e'] eqn:Hf; [discriminate|].
    intros H. inversion H; subst e'. exact (IH eq_refl).
  - destruct (d !! name) as [v|] eqn:Hd; simpl.
    + destruct (fill py_str d segs) as [out|e'] eqn:Hf; [discriminate|].
      intros H. inversion H; subst e'. destruct (IH eq_refl) as (n & -> & Hn & Hnone).
      exists n. split; [reflexivity|]. split; [apply elem_of_cons; now right | exact Hnone].
    + intros H. inversion H; subst e. exists name.
      split; [reflexivity|]. split; [apply elem_of_cons; now left | exact Hd].
  - destruct (d !! name) as [v|] eqn:Hd; simpl.
    + destruct (fill py_str d segs) as [out|e'] eqn:Hf; [discriminate|].
      intros H. inversion H; subst e'. destruct (IH eq_refl) as (n & -> & Hn & Hnone).
      exists n. split; [reflexivity|]. split; [apply elem_of_cons; now right | exact Hnone].
    + intros H. inversion H; subst e. exists name.
      split; [reflexivity|]. split; [apply elem_of_cons; now left | exact Hd].
Qed.

(** A value for every name that had one keeps what filling returned. *)
Lemma fill_weaken d d' segs out :
  fill py_str d segs = Ok out -> d ⊆ d' -> fill py_str d' segs = Ok out.
Proof.
  intros Hf Hsub. rewrite <- Hf. symmetry. apply fill_agree.
  intros name Hn. destruct (d !! name) as [v|] eqn:Hd.
  - symmetry. exact (lookup_weaken _ _ _ _ Hd Hsub).
  - destruct (fill_missing py_str d segs name Hn Hd) as (m & _ & _ & Hm). congruence.
Qed.

(** The exceptions of the scanner, on any text. *)
Lemma sub_raise (n : nat) : forall (s : string) d e,
  (String.length s <= n)%nat -> sub py_str d 0 s = Raise e ->
  e = ValueError
  \/ exists name, e = KeyError name /\ identifier name = true /\ d !! name = None.
Proof.
  induction n as [|n IH]; intros s d e Hlen Hsub.
  - destruct s; [discriminate | simpl in Hlen; lia].
  - destruct s as [|c s]; [discriminate|]. simpl in Hlen.
    destruct (Ascii.eqb_spec c delimiter) as [->|Hc].
    + rewrite sub_delimiter in Hsub.
      pose proof (match_after_inv s) as Hinv.
      destruct (match_after s) as [|name|name|] eqn:Hm;
        simpl convert in Hsub; simpl span in Hsub; cbn [bind] in Hsub.
      * destruct Hinv as [rest ->].
        change (sub py_str d 1 (String delimiter rest)) with (sub py_str d 0 rest) in Hsub.
        destruct (sub py_str d 0 rest) as [out'|e'] eqn:Hrest; [discriminate|].
        inversion Hsub; subst e'. apply (IH rest d e); [simpl in Hlen; lia | exact Hrest].
      * destruct Hinv as (Hid & rest & -> & Hstop).
        destruct (d !! name) eqn:Hd; cbn [bind] in Hsub.
        -- rewrite sub_skip in Hsub.
           destruct (sub py_str d 0 rest) as [out'|e'] eqn:Hrest; [discriminate|].
           inversion Hsub; subst e'.
           apply (IH rest d e); [rewrite length_append in Hlen; lia | exact Hrest].
        -- inversion Hsub; subst e. right. now exists name.
      * destruct Hinv as (Hid & rest & ->).
        destruct (d !! name) eqn:Hd; cbn [bind] in Hsub.
        -- replace (String "{" (name ++ String "}" rest))
             with (String "{" (name ++ "}") ++ rest) in Hsub
             by (now rewrite append_cons, append_assoc).
           replace (String.length name + 2) with (String.length (String "{" (name ++ "}")))
             in Hsub by (simpl; rewrite length_append; simpl; lia).
           rewrite sub_skip in Hsub.
           destruct (sub py_str d 0 rest) as [out'|e'] eqn:Hrest; [discriminate|].
           inversion Hsub; subst e'. apply (IH rest d e); [|exact Hrest].
           simpl in Hlen. rewrite length_append in Hlen. simpl in Hlen. lia.
        -- inversion Hsub; subst e. right. now exists name.
      * inversion Hsub. now left.
    + simpl in Hsub. apply Ascii.eqb_neq in Hc. rewrite Hc in Hsub.
      destruct (sub py_str d 0 s) as [out'|e'] eqn:Hrest; [discriminate|].
      inversion Hsub; subst e'. apply (IH s d e); [lia | exact Hrest].
Qed.

(** Property X1. Whatever the template string and the mapping,
    [substitute] ends in one of three ways. It returns, and then the
    template is a valid one and the text returned is its segments filled in.
    It raises [KeyError] for an identifier that the mapping lacks. Or it
    raises [ValueError], and then the template renders under no mapping at
    all. No other exception leaves the substitution of a string. *)
Theorem substitute_outcomes (s : string) d :
  match substitute py_str (Some s) d with
  | Ok out =>
      exists segs, well_formed segs = true /\ s = show segs
                   /\ fill py_str d segs = Ok out
  | Raise (KeyError name) => identifier name = true /\ d !! name = None
  | Raise ValueError =>
      forall d' out, substitute py_str (Some s) d' <> Ok out
  | Raise _ => False
  end.
Proof.
  destruct (substitute py_str (Some s) d) as [out|e] eqn:Hs.
  - destruct (substitute_ok_valid py_str s d out Hs) as (segs & Hwf & ->).
    exists segs. split; [exact Hwf|]. split; [reflexivity|].
    now rewrite <- (substitute_show py_str d segs Hwf).
  - destruct (sub_raise (String.length s) s d e (le_n _) Hs)
      as [->|(name & -> & Hid & Hnone)]; [|now split].
    intros d' out Hok.
    destruct (substitute_ok_valid py_str s d' out Hok) as (segs & Hwf & ->).
    rewrite (substitute_show py_str d segs Hwf) in Hs.
    destruct (fill_raise d segs _ Hs) as (n & Hn & _). discriminate.
Qed.

(** Property X2. A template that renders keeps rendering, to the same
    text, when the mapping is given more keys: whatever the template, the
    substitution reads the values of its placeholders and nothing else. *)
Theorem substitute_more_keys (s : string) d d' out :
  substitute py_str (Some s) d = Ok out -> d ⊆ d' ->
  substitute py_str (Some s) d' = Ok out.
Proof.
  intros Hs Hsub.
  destruct (substitute_ok_valid py_str s d out Hs) as (segs & Hwf & ->).
  rewrite (substitute_show py_str d segs Hwf) in Hs.
  rewrite (substitute_show py_str d' segs Hwf).
  exact (fill_weaken d d' segs out Hs Hsub).
Qed.

Lemma no_delimiter_app (a b : string) :
  no_delimiter (a ++ b) = no_delimiter a && no_delimiter b.
Proof.
  unfold no_delimiter. induction a as [|c a IH]; [reflexivity|].
  rewrite append_cons. simpl. now rewrite IH, andb_assoc.
Qed.

(** Filling without any value returns a text no longer than the template,
    and of the same length only when the template has no delimiter. *)
Lemma fill_empty_length segs out :
  well_formed segs = true -> fill py_str (∅ : gmap string V) segs = Ok out ->
  (String.length out <= String.length (show segs))%nat
  /\ (String.length out = String.length (show segs) -> no_delimiter (show segs) = true).
Proof.
  revert out. induction segs as [|seg segs IH]; intros out Hwf Hf.
  - inversion Hf. split; [simpl; lia | reflexivity].
  - simpl in Hf. destruct seg as [s| |name|name]; simpl in Hf, Hwf;
      try (rewrite lookup_empty in Hf; discriminate).
    + apply andb_prop in Hwf as [Hs Hwf].
      destruct (fill py_str ∅ segs) as [out'|] eqn:Hf'; [|discriminate].
      inversion Hf; subst out. destruct (IH out' Hwf eq_refl) as [Hle Heq].
      simpl show. rewrite !length_append. split; [lia|].
      intros Hl. rewrite no_delimiter_app, Hs. apply Heq. lia.
    + destruct (fill py_str ∅ segs) as [out'|] eqn:Hf'; [|discriminate].
      inversion Hf; subst out. destruct (IH out' Hwf eq_refl) as [Hle Heq].
      simpl show. rewrite !length_append. simpl. split; lia.
Qed.

(** Property X3. The templates that the substitution returns unchanged
    under every mapping are those without a delimiter: text free of [@] is
    returned as it is whatever the mapping holds, and a template that comes
    back unchanged from the empty mapping holds no [@]. *)
Theorem substitute_plain_text (s : string) :
  (no_delimiter s = true -> forall d, substitute py_str (Some s) d = Ok s)
  /\ (substitute py_str (Some s) (∅ : gmap string V) = Ok s -> no_delimiter s = true).
Proof.
  split.
  - intros Hs d. exact (sub_no_delimiter py_str d s Hs).
  - intros Hs.
    destruct (substitute_ok_valid py_str s ∅ s Hs) as (segs & Hwf & ->).
    rewrite (substitute_show py_str ∅ segs Hwf) in Hs.
    destruct (fill_empty_length segs (show segs) Hwf Hs) as [_ H].
    now apply H.
Qed.

(** Property X4. [render] works datum by datum. When it returns, the list
    returned has one entry for every datum, in order, each the rendering of
    its datum alone. When it raises, some datum is the first that does not
    render: the data before it all render, and the exception is the one that
    this datum raises; the data after it are not looked at. *)
Theorem render_pointwise (self : ProblemText) (data : list (gmap string V)) :
  match render py_str self data with
  | Ok rs => Forall2 (fun datum r => render_datum py_str self datum = Ok r) data rs
  | Raise e =>
      exists before datum after rs,
        data = (before ++ datum :: after)%list
        /\ render py_str self before = Ok rs
        /\ render_datum py_str self datum = Raise e
        /\ forall others, render py_str self (before ++ datum :: others)%list = Raise e
  end.
Proof.
  induction data as [|datum data IH]; simpl; [constructor|].
  destruct (render_datum py_str self datum) as [r|e] eqn:Hd; simpl.
  - destruct (render py_str self data) as [rs|e] eqn:Hr; simpl.
    + now constructor.
    + destruct IH as (before & bad & after & rs & -> & Hb & Hbad & Hall).
      exists (datum :: before), bad, after, (r :: rs).
      split; [reflexivity|]. split; [simpl; now rewrite Hd, Hb|].
      split; [exact Hbad|]. intros others. simpl. now rewrite Hd, Hall.
  - exists [], datum, data, []. split; [reflexivity|]. split; [reflexivity|].
    split; [exact Hd|]. intros others. simpl. now rewrite Hd.
Qed.
End TemplateOutcomes.

(** Property X2 on the template [Dear @Name,], rendered with one key and
    with three. *)
Lemma substitute_more_keys_witness :
  substitute (fun s : string => s) (Some "Dear @Name,") Demo.sample = Ok "Dear Ana,".
Proof.
  apply (substitute_more_keys (fun s : string => s) "Dear @Name,"
           {["Name" := "Ana"]} Demo.sample "Dear Ana,").
  - reflexivity.
  - apply map_subseteq_spec. intros k v Hk.
    apply lookup_singleton_Some in Hk as [<- <-]. reflexivity.
Defined.

(* ===================================================================== *)
(** * Further properties of generation                                    *)
(* ===================================================================== *)

Section GenerationMore.
Context {R V P : Type}.
Context (seed_rng : string -> R).
Context (py_str : V -> string).
Context (subclasses : string -> kind R V P).

Local Abbreviation attempts := (attempts subclasses).
Local Abbreviation generate_slots := (generate_slots seed_rng subclasses).
Local Abbreviation _generate_data := (_generate_data seed_rng subclasses).
Local Abbreviation rejects_then_accepts := (rejects_then_accepts subclasses).
Local Abbreviation student_text := (student_text seed_rng py_str subclasses).
Local Abbreviation example_text := (example_text seed_rng py_str subclasses).

Implicit Types (w : world R V) (self : Problem P).

(** *** Generators that draw, validate and build *)

Section Guarded.
Context (self : Problem P).
Context (cond : R -> bool) (build : R -> gmap string V) (next : R -> R).
Hypothesis guarded : forall r,
  generate (kind_of subclasses (cls self)) self r
  = (_ <- validate (cond r) ;; Ok (build r), next r).

(** The state [k] draws after [r] is the first one that passes the
    validation. *)
Local Abbreviation first_valid r k :=
  (cond (Nat.iter k next r) = true
   /\ forall j, (j < k)%nat -> cond (Nat.iter j next r) = false).

Lemma guarded_attempts fuel w outcome w' :
  attempts fuel self w = Some (outcome, w') ->
  exists k, first_valid (rng w) k /\ outcome = Ok (build (Nat.iter k next (rng w))).
Proof.
  revert w. induction fuel as [|fuel IH]; intros w H; [discriminate|].
  simpl in H. unfold call_generate in H. rewrite guarded in H. unfold validate in H.
  destruct (cond (rng w)) eqn:Hc; simpl in H.
  - inversion H; subst. exists 0. simpl. split; [split; [exact Hc | intros j Hj; lia]|].
    reflexivity.
  - apply IH in H as (k & [Hk Hmin] & ->). simpl in Hk, Hmin. exists (S k).
    rewrite !Nat.iter_succ_r. split; [split; [exact Hk|] | reflexivity].
    intros [|j] Hj; [exact Hc|]. rewrite Nat.iter_succ_r. apply Hmin. lia.
Qed.

Lemma guarded_rejects_then_accepts k r :
  first_valid r k -> rejects_then_accepts self k r (build (Nat.iter k next r)).
Proof.
  revert r. induction k as [|k IH]; intros r [Hk Hmin]; simpl; rewrite guarded;
    unfold validate.
  - simpl in Hk. now rewrite Hk.
  - pose proof (Hmin 0 ltac:(lia)) as H0. simpl in H0. rewrite H0. simpl.
    split; [reflexivity|].
    change (next (Nat.iter k next r)) with (Nat.iter (S k) next r).
    rewrite Nat.iter_succ_r. apply IH. rewrite Nat.iter_succ_r in Hk.
    split; [exact Hk|]. intros j Hj. specialize (Hmin (S j)).
    rewrite Nat.iter_succ_r in Hmin. apply Hmin. lia.
Qed.

Lemma guarded_slots fuel seed indices w res w' :
  generate_slots fuel self seed indices w = Some (res, w') ->
  exists data,
    res = Ok data
    /\ Forall2 (fun i datum =>
                  exists k, first_valid (seed_rng (slot_seed i seed)) k
                            /\ datum = build (Nat.iter k next (seed_rng (slot_seed i seed))))
         indices data.
Proof.
  revert w res w'. induction indices as [|i indices IH]; intros w res w' H; simpl in H.
  - inversion H; subst. exists []. split; [reflexivity | constructor].
  - destruct (attempts fuel self (random_seed seed_rng (slot_seed i seed) w))
      as [[o w1]|] eqn:Ha; [|discriminate].
    apply guarded_attempts in Ha as (k & Hk & ->). simpl in Hk.
    destruct (generate_slots fuel self seed indices w1) as [[res' w2]|] eqn:Hg;
      [|discriminate].
    destruct (IH _ _ _ Hg) as (data & -> & Hall). inversion H; subst.
    exists (build (Nat.iter k next (seed_rng (slot_seed i seed))) :: data).
    split; [reflexivity|]. constructor; [|exact Hall]. now exists k.
Qed.

(** Property X5. Take a generator that draws from the random source,
    calls [validate] on a condition of what it drew, and builds its datum:
    [cond], [build] and [next] are the condition, the datum and the state
    left behind, as functions of the state found. Then [_generate_data]
    never raises: when it returns, it returns data, one datum per
    subproblem, each built from the first state that passes the validation
    among those that follow the seeding of its subproblem. And when, for
    every subproblem, such a first state comes after [K i] rejected draws,
    [_generate_data] returns exactly these data once it is allowed more than
    [K i] iterations. *)
Theorem validate_guards_data fuel seed w :
  let n := number_of_subproblems self in
  let start i := seed_rng (slot_seed i seed) in
  (forall res w',
     _generate_data fuel self seed w = Some (res, w') ->
     exists data,
       res = Ok data
       /\ Forall2 (fun i datum =>
                     exists k, first_valid (start i) k
                               /\ datum = build (Nat.iter k next (start i)))
            (seq 0 n) data)
  /\ (forall K : nat -> nat,
        (forall i, (i < n)%nat -> first_valid (start i) (K i) /\ (K i < fuel)%nat) ->
        exists w',
          _generate_data fuel self seed w
          = Some (Ok (map (fun i => build (Nat.iter (K i) next (start i))) (seq 0 n)), w')).
Proof.
  intros n start. split.
  - intros res w' H. exact (guarded_slots _ _ _ _ _ _ H).
  - intros K HK.
    apply (generate_slots_accept seed_rng subclasses fuel self seed (seq 0 n) K
             (fun i => build (Nat.iter (K i) next (start i))) w).
    intros i Hi. apply elem_of_seq in Hi. destruct (HK i) as [Hfirst Hlt]; [lia|].
    split; [|exact Hlt]. now apply guarded_rejects_then_accepts.
Qed.
End Guarded.

(** *** Generators that never return a datum *)

Lemma attempts_all_rejected fuel self w :
  (forall r, fst (generate (kind_of subclasses (cls self)) self r)
             = Raise GeneratedDataIncorrect) ->
  attempts fuel self w = None.
Proof.
  intros Hrej. revert w. induction fuel as [|fuel IH]; intros w; [reflexivity|].
  simpl. unfold call_generate. specialize (Hrej (rng w)).
  destruct (generate _ _ (rng w)) as [o r]. simpl in Hrej. subst o. apply IH.
Qed.

(** Property X6. The loop of [_generate_data] has no bound on the number
    of retries: for an instance with at least one subproblem whose generator
    raises [GeneratedDataIncorrect] in every state of the random source, no
    number of iterations lets [_generate_data], [example_text] or
    [student_text] return or raise. *)
Theorem generate_data_retries_without_bound self :
  (forall r, fst (generate (kind_of subclasses (cls self)) self r)
             = Raise GeneratedDataIncorrect) ->
  number_of_subproblems self <> 0 ->
  forall fuel w,
    (forall seed, _generate_data fuel self seed w = None)
    /\ example_text fuel self w = None
    /\ (forall student, student_text fuel self student w = None).
Proof.
  intros Hrej Hn fuel w.
  assert (Hdata : forall seed, _generate_data fuel self seed w = None).
  { intros seed. unfold Generation._generate_data.
    destruct (number_of_subproblems self) as [|n]; [contradiction|].
    simpl. now rewrite (attempts_all_rejected fuel self _ Hrej). }
  split; [exact Hdata|]. split.
  - unfold Generation.example_text, Generation.example_data. now rewrite Hdata.
  - intros student. unfold Generation.student_text. now rewrite Hdata.
Qed.

(** Property X7. An instance of [Problem] itself has the [generate] that
    raises [NotImplementedError]. With no subproblem to generate it is never
    called: [student_text] and [example_text] return the empty list and leave
    the random source alone. With at least one subproblem both raise
    [NotImplementedError] after one call of [random.seed] and one call of
    [generate]: the exception is not retried and no further subproblem is
    started. *)
Theorem base_class_generate_not_retried self student fuel w :
  cls self = ProblemModel ->
  let stop seed :=
    {| rng := seed_rng (slot_seed 0 seed);
       trace := (trace w ++
                 [Seeded (slot_seed 0 seed);
                  Generated (seed_rng (slot_seed 0 seed)) (Raise NotImplementedError)
                    (seed_rng (slot_seed 0 seed))])%list |} in
  match number_of_subproblems self with
  | O => student_text fuel self student w = Some (Ok [], w)
         /\ example_text fuel self w = Some (Ok [], w)
  | S _ =>
      student_text (S fuel) self student w
      = Some (Raise NotImplementedError,
              stop (Some (str_pk (id self) ++ "-" ++ str_pk (student_id student))))
      /\ example_text (S fuel) self w = Some (Raise NotImplementedError, stop None)
  end.
Proof.
  intros Hcls stop.
  unfold Generation.student_text, Generation.example_text, Generation.example_data,
    Generation._generate_data.
  destruct (number_of_subproblems self) as [|n].
  - simpl. unfold Generation._render_text. now destruct (text self).
  - cbn [seq generate_slots Generation.generate_slots].
    cbn [attempts Generation.attempts]. unfold call_generate. rewrite Hcls. simpl.
    rewrite <- !app_assoc. split; reflexivity.
Qed.
End GenerationMore.

(** *** The strings the random source is seeded with *)

Lemma all_chars_impl (p q : ascii -> bool) (s : string) :
  (forall c, p c = true -> q c = true) -> all_chars p s = true -> all_chars q s = true.
Proof.
  intros Hpq. induction s as [|c s IH]; [reflexivity|]. simpl.
  intros H. apply andb_prop in H as [Hc Hs]. now rewrite (Hpq c Hc), (IH Hs).
Qed.

Lemma pretty_N_go_digits (x : N) : forall s,
  all_chars is_digit s = true -> all_chars is_digit (pretty_N_go x s) = true.
Proof.
  induction (N.lt_wf_0 x) as [x _ IH]. intros s Hs.
  destruct (decide (x = 0%N)) as [->|Hx]; [now rewrite pretty_N_go_0|].
  rewrite pretty_N_go_step by lia. apply IH; [apply N.div_lt; lia|].
  simpl. rewrite Hs, andb_true_r. unfold pretty_N_char.
  repeat case_match; reflexivity.
Qed.

(** [str] of a natural number is made of digits. *)
Lemma pretty_nat_digits (n : nat) : all_chars is_digit (pretty n) = true.
Proof.
  unfold pretty, pretty_nat, pretty, pretty_N.
  destruct (decide (N.of_nat n = 0%N)); [reflexivity|].
  now apply pretty_N_go_digits.
Qed.

Lemma str_pk_no_dash (pk : option nat) :
  all_chars (fun c => negb (Ascii.eqb c "-")) (str_pk pk) = true.
Proof.
  destruct pk as [n|]; [|reflexivity]. simpl.
  apply (all_chars_impl is_digit); [|apply pretty_nat_digits].
  intros c Hc.
  destruct (Ascii.eqb_spec c "-") as [->|]; [discriminate | reflexivity].
Qed.

Lemma str_pk_inj (a b : option nat) : str_pk a = str_pk b -> a = b.
Proof.
  destruct a as [n|], b as [m|]; simpl; intros H.
  - f_equal. exact (pretty_nat_inj _ _ H).
  - pose proof (pretty_nat_digits n) as Hd. rewrite H in Hd. discriminate.
  - pose proof (pretty_nat_digits m) as Hd. rewrite <- H in Hd. discriminate.
  - reflexivity.
Qed.

(** Two texts cut at their first dash agree part by part. *)
Lemma split_at_dash (x y s t : string) :
  all_chars (fun c => negb (Ascii.eqb c "-")) x = true ->
  all_chars (fun c => negb (Ascii.eqb c "-")) y = true ->
  x ++ "-" ++ s = y ++ "-" ++ t -> x = y /\ s = t.
Proof.
  revert y. induction x as [|c x IH]; intros y Hx Hy H.
  - destruct y as [|c' y].
    + rewrite !append_empty_l in H. inversion H. now split.
    + rewrite append_empty_l, append_cons in H. inversion H; subst c'.
      simpl in Hy. discriminate.
  - destruct y as [|c' y].
    + rewrite append_empty_l, append_cons in H. inversion H; subst c.
      simpl in Hx. discriminate.
    + rewrite !append_cons in H. inversion H; subst c'.
      simpl in Hx, Hy. apply andb_prop in Hx as [_ Hx]. apply andb_prop in Hy as [_ Hy].
      destruct (IH y Hx Hy) as [-> ->]; [assumption|]. now split.
Qed.

(** Property X8. The string that [student_text] and [_generate_data]
    seed the random source with, made of the index of the subproblem, the
    key of the problem and the key of the student, names all three: two
    such strings are equal exactly for the same subproblem of the same
    problem and the same student, keys of unsaved objects ([None])
    included. *)
Theorem seed_names_problem_student_subproblem (i i' : nat) (a a' b b' : option nat) :
  slot_seed i (Some (str_pk a ++ "-" ++ str_pk b))
  = slot_seed i' (Some (str_pk a' ++ "-" ++ str_pk b'))
  <-> i = i' /\ a = a' /\ b = b'.
Proof.
  split; [|now intros (-> & -> & ->)].
  unfold slot_seed, str_seed. intros H.
  apply split_at_dash in H as [Hi H]; try apply (str_pk_no_dash (Some _)).
  apply split_at_dash in H as [Ha Hb]; try apply str_pk_no_dash.
  split; [exact (pretty_nat_inj _ _ Hi)|].
  split; now apply str_pk_inj.
Qed.

(** Property X5 on the [Dice] problem, whose generator validates that the
    number drawn is a multiple of four. *)
Lemma validate_guards_data_witness :
  exists w',
    _generate_data Demo.seed_rng Demo.subclasses 5 Demo.dice_problem (Some "1-1") Demo.idle
    = Some (Ok [Demo.dice_data 0; Demo.dice_data 1], w').
Proof.
  refine (proj2 (validate_guards_data Demo.seed_rng Demo.subclasses Demo.dice_problem
                   (fun r => (r mod 4 =? 0)%nat) (fun r => {["x" := r]}) S _
                   5 (Some "1-1") Demo.idle) Demo.dice_rejections _).
  - intros r.
    change (generate (kind_of Demo.subclasses (cls Demo.dice_problem)) Demo.dice_problem r)
      with (if (r mod 4 =? 0)%nat then (Ok ({["x" := r]} : gmap string nat), S r)
            else (Raise GeneratedDataIncorrect, S r)).
    unfold validate. now destruct (r mod 4 =? 0)%nat.
  - intros i Hi. simpl in Hi.
    destruct i as [|[|i]]; [| |exfalso; lia].
    + split; [split; [reflexivity|]|simpl; lia]. intros j Hj. simpl in Hj. lia.
    + split; [split; [reflexivity|]|simpl; lia].
      intros j Hj. simpl in Hj. destruct j as [|[|[|j]]]; [reflexivity..|lia].
Defined.

(** Property X6 on a problem of the kind [Stuck]. *)
Lemma generate_data_retries_without_bound_witness :
  _generate_data Demo.seed_rng Demo.subclasses_with_stuck 1000
    Demo.stuck_problem (Some "3-1") Demo.idle = None.
Proof.
  apply (generate_data_retries_without_bound Demo.seed_rng Demo.py_str
           Demo.subclasses_with_stuck Demo.stuck_problem).
  - intros r. reflexivity.
  - discriminate.
Defined.

(** Property X7 on the instance of [Problem] itself that a view holds for
    the [Dice] problem. *)
Lemma base_class_generate_not_retried_witness :
  student_text Demo.seed_rng Demo.py_str Demo.subclasses 1
    DemoStore.parent_handle Demo.student Demo.idle
  = Some (Raise NotImplementedError,
          {| rng := 236;
             trace := [Seeded "0-1-1"; Generated 236 (Raise NotImplementedError) 236] |}).
Proof.
  exact (proj1 (base_class_generate_not_retried Demo.seed_rng Demo.py_str Demo.subclasses
                  DemoStore.parent_handle Demo.student 0 Demo.idle eq_refl)).
Defined.

(* ===================================================================== *)
(** * Further properties of saving, downcasting and copying               *)
(* ===================================================================== *)

Section StoreMore.
Context {P : Type}.
Implicit Types (st : state P) (self o h : Problem P) (l : nat).

(** The instance that [save] leaves at the address of [self] once the rows
    are written under the key [i]. *)
Local Abbreviation saved_as self i :=
  (set_adding false (set_id (Some i) (set_content_type (get_for_model (cls self)) self))).

(** The key that [save] writes [self] under. *)
Local Abbreviation key_of self st :=
  (match id self with Some i => i | None => sequence (db st) end).

(** What a [save] that returned has left: the instance with its key, the
    saved state of its problem; the rows of other keys as they were; the
    key counter past the key, and ahead of all keys if it was. *)
Lemma save_persisted l st self st1 :
  heap st !! l = Some self -> save l st = Some (Ok tt, st1) ->
  heap st1 = <[l := saved_as self (key_of self st)]> (heap st)
  /\ persisted (db st1) (saved_as self (key_of self st)) (key_of self st)
  /\ (cls self = ProblemModel -> children (db st1) = children (db st))
  /\ (forall k, k <> key_of self st -> problems (db st1) !! k = problems (db st) !! k)
  /\ (key_of self st < sequence (db st1))%nat
  /\ (sequence_ahead (db st) -> sequence_ahead (db st1)).
Proof.
  intros H Hs. rewrite (save_run l st self H) in Hs. inversion Hs; subst st1; clear Hs.
  assert (Hkey : (key_of self st
                  < match id self with
                    | Some i => Nat.max (sequence (db st)) (S i)
                    | None => S (sequence (db st))
                    end)%nat /\
                 (sequence (db st)
                  <= match id self with
                     | Some i => Nat.max (sequence (db st)) (S i)
                     | None => S (sequence (db st))
                     end)%nat) by (destruct (id self); lia).
  destruct Hkey as [Hkey Hmono].
  split; [reflexivity|]. split; [|split; [|split; [|split]]].
  - split; [reflexivity|]. split; [simpl; apply lookup_insert_eq|]. simpl.
    destruct (cls self) as [|name]; [reflexivity|].
    split; [rewrite lookup_insert_eq; eauto | intros _; apply lookup_insert_eq].
  - intros Hc. simpl. now rewrite Hc.
  - intros k Hk. simpl. apply lookup_insert_ne. congruence.
  - exact Hkey.
  - intros [Hp Hc]. split.
    + intros k Hk. simpl in Hk. simpl sequence.
      destruct (decide (k = key_of self st)) as [->|Hne]; [exact Hkey|].
      rewrite lookup_insert_ne in Hk by congruence. apply Hp in Hk. lia.
    + intros name k Hk. simpl in Hk. simpl sequence.
      destruct (decide (k = key_of self st)) as [->|Hne]; [exact Hkey|].
      assert (is_Some (children (db st) !! (name, k))) as Hold.
      { destruct (cls self) as [|name']; [exact Hk|].
        rewrite lookup_insert_ne in Hk by congruence. exact Hk. }
      apply Hc in Hold. lia.
Qed.

(** Property X9. A [save] that returns has made the instance the saved
    state of its problem, whatever its class: the instance then carries the
    key of a row of the parent table that holds its columns, with the
    content type of its class, and an instance of a subclass has its
    parameters in the row of the child table. What was saved is what
    [downcast] gives back: from an instance of [Problem] itself that holds
    the columns of that row, [downcast] returns a new object equal to the
    saved instance when a subclass saved it; when [Problem] itself saved it,
    the child tables are as before and [downcast] returns the instance it
    was called on, so a row of a child table is out of its reach. *)
Theorem save_then_downcast l st self st1 :
  heap st !! l = Some self -> save l st = Some (Ok tt, st1) ->
  exists saved i,
    heap st1 !! l = Some saved
    /\ i = key_of self st
    /\ persisted (db st1) saved i
    /\ cls saved = cls self
    /\ content_type saved = get_for_model (cls self)
    /\ (forall st2 l2 h,
          db st2 = db st1 -> heap st2 !! l2 = Some h ->
          cls h = ProblemModel -> id h = Some i -> row_of h = row_of saved ->
          match cls self with
          | SubclassModel _ =>
              exists st3,
                downcast l2 st2 = Some (Ok (fresh (dom (heap st2))), st3)
                /\ heap st3 !! fresh (dom (heap st2)) = Some saved
                /\ db st3 = db st1
          | ProblemModel =>
              downcast l2 st2 = Some (Ok l2, st2)
              /\ children (db st1) = children (db st)
          end).
Proof.
  intros H Hs. destruct (save_persisted l st self st1 H Hs) as (Hh & Hp & Hc & _).
  exists (saved_as self (key_of self st)), (key_of self st).
  split; [rewrite Hh; apply lookup_insert_eq|].
  split; [reflexivity|]. split; [exact Hp|]. split; [reflexivity|].
  split; [reflexivity|].
  intros st2 l2 h Hdb Hl2 Hcls Hid Hrow.
  assert (Hct : content_type h = get_for_model (cls self)).
  { change (row_content_type (row_of h) = get_for_model (cls self)). now rewrite Hrow. }
  destruct Hp as (_ & Hprow & Hkind). simpl in Hkind.
  destruct (cls self) as [|name] eqn:Hself.
  - split; [|now apply Hc].
    apply (downcast_same l2 st2 h Hl2). now rewrite Hct, Hcls.
  - destruct Hkind as [_ Hchild]. specialize (Hchild eq_refl).
    rewrite (downcast_fetch l2 st2 h name (key_of self st) (parameters self) Hl2).
    + eexists. split; [reflexivity|]. split; [|exact Hdb].
      simpl. rewrite lookup_insert_eq. f_equal.
      destruct self, h. simpl in *. subst. inversion Hrow; subst. reflexivity.
    + rewrite Hct, Hcls. discriminate.
    + now rewrite Hct.
    + exact Hid.
    + rewrite Hdb, Hprow. now rewrite Hrow.
    + rewrite Hdb. exact Hchild.
Qed.

(** Property X10. Saving twice is saving once: after a [save] that
    returned, a second [save] on the same instance returns and changes
    neither an object nor the database, so an instance that had no key gets
    one row, not two. The key counter is then past the key of the instance,
    also when the caller brought the key, and it is ahead of every key in
    use if it was before. *)
Theorem save_twice l st self st1 :
  heap st !! l = Some self -> save l st = Some (Ok tt, st1) ->
  save l st1 = Some (Ok tt, st1)
  /\ (exists saved i,
        heap st1 !! l = Some saved /\ id saved = Some i
        /\ (i < sequence (db st1))%nat
        /\ (id self = None -> i = sequence (db st)
                              /\ sequence (db st1) = S (sequence (db st))))
  /\ (sequence_ahead (db st) -> sequence_ahead (db st1)).
Proof.
  intros H Hs.
  destruct (save_persisted l st self st1 H Hs) as (Hh & _ & _ & _ & Hkey & Hahead).
  split; [|split; [|exact Hahead]].
  - rewrite (save_run l st self H) in Hs. inversion Hs; subst st1; clear Hs.
    erewrite save_run; [|simpl; apply lookup_insert_eq].
    simpl. rewrite !insert_insert_eq.
    replace (set_adding false
               (set_id (Some (key_of self st))
                  (set_content_type (get_for_model (cls self))
                     (saved_as self (key_of self st)))))
      with (saved_as self (key_of self st)) by (now destruct self).
    replace (row_of (set_content_type (get_for_model (cls self))
                       (saved_as self (key_of self st))))
      with (row_of (set_content_type (get_for_model (cls self)) self)) by reflexivity.
    replace (Nat.max
               (match id self with
                | Some i => Nat.max (sequence (db st)) (S i)
                | None => S (sequence (db st))
                end) (S (key_of self st)))
      with (match id self with
            | Some i => Nat.max (sequence (db st)) (S i)
            | None => S (sequence (db st))
            end) by (destruct (id self); lia).
    destruct (cls self); [reflexivity|]. now rewrite insert_insert_eq.
  - exists (saved_as self (key_of self st)), (key_of self st).
    split; [rewrite Hh; apply lookup_insert_eq|]. split; [reflexivity|].
    split; [exact Hkey|]. intros Hnone.
    rewrite (save_run l st self H) in Hs. inversion Hs; subst st1. simpl.
    now rewrite Hnone.
Qed.

(** Property X11. An instance that passed [clean] is of a subclass of
    [Problem], has a text, if it has one, for the content type of its
    class, and passes [clean] again with nothing changed by the second
    call. A [save] that then returns has written a row whose content type
    is that of the class of the instance and whose text, if it has one, is a
    text for that very content type. *)
Theorem clean_then_save l st self st1 :
  heap st !! l = Some self -> clean l st = Some (Ok tt, st1) ->
  clean l st1 = Some (Ok tt, st1)
  /\ cls self <> ProblemModel
  /\ (forall t, text self = Some t -> text_content_type t = get_for_model (cls self))
  /\ (forall st2,
        save l st1 = Some (Ok tt, st2) ->
        exists r,
          problems (db st2) !! key_of self st = Some r
          /\ row_content_type r = get_for_model (cls self)
          /\ row_text r = text self
          /\ (forall t, row_text r = Some t -> text_content_type t = row_content_type r)).
Proof.
  intros H Hclean. rewrite (clean_run l st self H) in Hclean.
  destruct (cls self) as [|name] eqn:Hcls; simpl in Hclean; [discriminate|].
  assert (Hst1 : st1 = {| heap := <[l := set_content_type (get_for_model (SubclassModel name))
                                            self]> (heap st);
                          db := db st |}
                 /\ forall t, text self = Some t
                              -> text_content_type t = get_for_model (SubclassModel name)).
  { destruct (text self) as [t|].
    - destruct (decide (get_for_model (SubclassModel name) = text_content_type t))
        as [Heq|]; [|discriminate].
      inversion Hclean. split; [reflexivity|]. intros t' Ht'. inversion Ht'; subst t'.
      now symmetry.
    - inversion Hclean. split; [reflexivity | discriminate]. }
  destruct Hst1 as [-> Htext].
  set (self1 := set_content_type (get_for_model (SubclassModel name)) self).
  assert (H1 : heap {| heap := <[l := self1]> (heap st); db := db st |} !! l = Some self1)
    by (simpl; apply lookup_insert_eq).
  split; [|split; [discriminate|split; [exact Htext|]]].
  - rewrite (clean_run l _ self1 H1). simpl. rewrite Hcls. simpl.
    rewrite insert_insert_eq.
    replace (set_content_type (get_for_model (SubclassModel name)) self1) with self1
      by (subst self1; now destruct self).
    destruct (text self) as [t|] eqn:Ht; [|reflexivity].
    destruct (decide (get_for_model (SubclassModel name) = text_content_type t))
      as [_|Hne]; [reflexivity|].
    now rewrite (Htext t eq_refl) in Hne.
  - intros st2 Hs. rewrite (save_run l _ self1 H1) in Hs. inversion Hs; subst st2.
    eexists. split; [simpl; apply lookup_insert_eq|]. simpl. rewrite Hcls.
    split; [reflexivity|]. split; [reflexivity|]. exact Htext.
Qed.

(** Property X12. [downcast] only reads. On every instance it returns
    or raises; the database is as before and so is every object there was.
    When it returns, the object returned is of the class of the content type
    of the instance and has its key; it is the instance itself exactly
    when the instance is of that class already, and otherwise a new object
    with the columns of the parent row and the parameters of the child row.
    When it raises, the content type names another class than that of the
    instance, and either it is the content type of [Problem] itself, or the
    instance has no key, or a row under its key is missing. *)
Theorem downcast_reads_only l st self :
  heap st !! l = Some self ->
  exists res st',
    downcast l st = Some (res, st')
    /\ db st' = db st
    /\ (forall k o, heap st !! k = Some o -> heap st' !! k = Some o)
    /\ match res with
       | Ok l' =>
           exists o,
             heap st' !! l' = Some o
             /\ cls o = model_class (content_type self)
             /\ id o = id self
             /\ (l' = l <-> model_class (content_type self) = cls self)
             /\ (l' <> l ->
                 heap st !! l' = None
                 /\ exists name i r p,
                      cls o = SubclassModel name /\ id self = Some i
                      /\ problems (db st) !! i = Some r
                      /\ children (db st) !! (name, i) = Some p
                      /\ row_of o = r /\ parameters o = p)
       | Raise e =>
           st' = st
           /\ model_class (content_type self) <> cls self
           /\ match model_class (content_type self) with
              | ProblemModel => e = FieldError
              | SubclassModel name =>
                  e = DoesNotExist
                  /\ (id self = None
                      \/ exists i, id self = Some i
                                   /\ (problems (db st) !! i = None
                                       \/ children (db st) !! (name, i) = None))
              end
       end.
Proof.
  intros H. unfold downcast. rewrite (bindM_load _ _ _ _ H).
  destruct (decide (model_class (content_type self) = cls self)) as [Hsame|Hdiff].
  - exists (Ok l), st. split; [reflexivity|]. split; [reflexivity|].
    split; [auto|]. exists self. split; [exact H|]. split; [now symmetry|].
    split; [reflexivity|]. split; [now split | congruence].
  - unfold get_object_for_this_type.
    destruct (model_class (content_type self)) as [|name] eqn:Hn.
    { exists (Raise FieldError), st. split; [reflexivity|]. split; [reflexivity|].
      split; [auto|]. now split. }
    destruct (id self) as [i|] eqn:Hi.
    2:{ exists (Raise DoesNotExist), st. split; [reflexivity|]. split; [reflexivity|].
        split; [auto|]. split; [reflexivity|]. split; [exact Hdiff|]. split; auto. }
    rewrite bindM_get_db.
    destruct (problems (db st) !! i) as [r|] eqn:Hr.
    2:{ exists (Raise DoesNotExist), st. split; [reflexivity|]. split; [reflexivity|].
        split; [auto|]. split; [reflexivity|]. split; [exact Hdiff|].
        split; [reflexivity|]. right. exists i. auto. }
    destruct (children (db st) !! (name, i)) as [p|] eqn:Hp.
    2:{ exists (Raise DoesNotExist), st. split; [reflexivity|]. split; [reflexivity|].
        split; [auto|]. split; [reflexivity|]. split; [exact Hdiff|].
        split; [reflexivity|]. right. exists i. auto. }
    assert (Hfresh : heap st !! fresh (dom (heap st)) = None).
    { apply not_elem_of_dom. apply is_fresh. }
    eexists (Ok _), _. split; [reflexivity|]. split; [reflexivity|]. split.
    { intros k o Hk. simpl. rewrite lookup_insert_ne; [exact Hk|]. congruence. }
    eexists. split; [simpl; apply lookup_insert_eq|]. split; [reflexivity|].
    split; [reflexivity|]. split.
    { split; [intros Heq; rewrite Heq in Hfresh; congruence | intros Hc; congruence]. }
    intros _. split; [exact Hfresh|]. exists name, i, r, p.
    repeat split; try assumption. now destruct r.
Qed.

(** Property X13. On the instance of a saved problem, [downcast]
    returns: the object returned is of the class of its content type and is
    again the instance of that saved problem, with the same columns, and
    [downcast] on it returns it and changes nothing. *)
Theorem downcast_idempotent l st self i :
  heap st !! l = Some self -> persisted (db st) self i ->
  exists l' st' o,
    downcast l st = Some (Ok l', st')
    /\ heap st' !! l' = Some o
    /\ cls o = model_class (content_type o)
    /\ persisted (db st') o i
    /\ row_of o = row_of self
    /\ downcast l' st' = Some (Ok l', st').
Proof.
  intros Hl (Hid & Hrow & Hkind).
  destruct (decide (model_class (content_type self) = cls self)) as [Hsame|Hdiff].
  - pose proof (downcast_same l st self Hl Hsame) as Hd.
    exists l, st, self. split; [exact Hd|]. split; [exact Hl|]. split; [now symmetry|].
    split; [now split|]. split; [reflexivity | exact Hd].
  - destruct (model_class (content_type self)) as [|name] eqn:Hn; [congruence|].
    destruct Hkind as [[p Hp] _]. rewrite <- Hn in Hdiff.
    rewrite (downcast_fetch l st self name i p Hl Hdiff Hn Hid Hrow Hp).
    eexists _, _, _. split; [reflexivity|].
    split; [simpl; apply lookup_insert_eq|]. split; [simpl; now rewrite Hn|].
    split.
    { split; [reflexivity|]. split; [exact Hrow|]. simpl. rewrite Hn.
      split; [eauto | intros _; exact Hp]. }
    split; [reflexivity|].
    eapply downcast_same; [simpl; apply lookup_insert_eq|]. simpl. now rewrite Hn.
Qed.

(** [copy] on the instance of a saved problem, in one equation: [o] is the
    downcast instance and [rest] the objects next to the one returned. *)
Lemma copy_run l target st self i :
  heap st !! l = Some self -> persisted (db st) self i ->
  exists l' o rest,
    copy l target st =
    Some (Ok l',
          {| heap := <[l' := duplicate_of o target (sequence (db st))]> rest;
             db := inserted (db st) (duplicate_of o target (sequence (db st))) |})
    /\ cls o = model_class (content_type self)
    /\ row_of o = row_of self
    /\ (l' = l <-> model_class (content_type self) = cls self).
Proof.
  intros Hl (Hid & Hrow & Hkind).
  destruct (decide (model_class (content_type self) = cls self)) as [Hsame|Hdiff].
  - pose proof (downcast_same l st self Hl Hsame) as Hd.
    exists l, self, (heap st).
    split; [exact (copy_after_downcast l l target st st self Hd Hl)|].
    split; [now symmetry|]. now split.
  - destruct (model_class (content_type self)) as [|name] eqn:Hn; [congruence|].
    destruct Hkind as [[p Hp] _]. rewrite <- Hn in Hdiff.
    pose proof (downcast_fetch l st self name i p Hl Hdiff Hn Hid Hrow Hp) as Hd.
    eexists _, _, _. split.
    { rewrite (copy_after_downcast l _ target st _ _ Hd) by (simpl; apply lookup_insert_eq).
      simpl. rewrite insert_insert_eq. reflexivity. }
    split; [reflexivity|]. split; [reflexivity|].
    split; [|intros Hc; rewrite <- Hn in Hc; contradiction].
    intros Heq. exfalso. pose proof (is_fresh (dom (heap st))) as Hfresh.
    rewrite Heq in Hfresh. apply Hfresh. apply elem_of_dom. eauto.
Qed.

Lemma duplicate_persisted (d : database P) o target :
  sequence_ahead d ->
  persisted (inserted d (duplicate_of o target (sequence d)))
    (duplicate_of o target (sequence d)) (sequence d).
Proof.
  intros Hseq.
  destruct (inserted_frame d (duplicate_of o target (sequence d)) Hseq)
    as (_ & _ & Hnew & Hchild & _).
  split; [reflexivity|]. split; [exact Hnew|].
  change (model_class (content_type (duplicate_of o target (sequence d)))) with (cls o).
  destruct (cls o) as [|name] eqn:Hc; [exact Hc|].
  rewrite (Hchild name Hc). split; [eauto | reflexivity].
Qed.

(** Property X14. The object that [copy] returns is the instance of the
    new problem, so it can be copied in turn; since it is of the class of
    its content type already, the second [copy] fetches nothing and returns
    the same object, which from then on stands for the second copy. The
    keys of the two copies are the next two of the sequence; both rows are
    in the parent table afterwards, with the documents they were copied
    into, next to the row of the original, and the parent table has grown by
    exactly two rows. *)
Theorem copy_of_copy l target1 target2 st self i :
  heap st !! l = Some self -> persisted (db st) self i -> sequence_ahead (db st) ->
  exists l' st1 st2 second,
    copy l target1 st = Some (Ok l', st1)
    /\ copy l' target2 st1 = Some (Ok l', st2)
    /\ heap st2 !! l' = Some second
    /\ id second = Some (S (sequence (db st)))
    /\ document second = target2
    /\ cls second = model_class (content_type self)
    /\ problems (db st2) !! sequence (db st)
       = Some {| row_document := target1;
                 row_content_type := content_type self;
                 row_text := text self;
                 row_number_of_subproblems := number_of_subproblems self |}
    /\ problems (db st2) !! S (sequence (db st))
       = Some {| row_document := target2;
                 row_content_type := content_type self;
                 row_text := text self;
                 row_number_of_subproblems := number_of_subproblems self |}
    /\ problems (db st2) !! i = Some (row_of self)
    /\ size (problems (db st2)) = S (S (size (problems (db st))))
    /\ sequence_ahead (db st2).
Proof.
  intros Hl Hp Hseq.
  destruct (copy_run l target1 st self i Hl Hp) as (l' & o & rest & Hc1 & Hcls & Hro & _).
  set (j := sequence (db st)) in *.
  set (first := duplicate_of o target1 j) in *.
  set (st1 := {| heap := <[l' := first]> rest; db := inserted (db st) first |}) in *.
  assert (Hl1 : heap st1 !! l' = Some first) by (simpl; apply lookup_insert_eq).
  pose proof (duplicate_persisted (db st) o target1 Hseq) as Hp1. fold j first in Hp1.
  destruct (inserted_frame (db st) first Hseq) as (Hf & _ & Hnew & _ & Hfp & _ & Hseq1).
  fold j in Hf, Hnew, Hfp.
  assert (Hd1 : downcast l' st1 = Some (Ok l', st1)).
  { apply (downcast_same l' st1 first Hl1). reflexivity. }
  pose proof (copy_after_downcast l' l' target2 st1 st1 first Hd1 Hl1) as Hc2.
  change (sequence (db st1)) with (S j) in Hc2.
  set (second := duplicate_of first target2 (S j)) in *.
  destruct (inserted_frame (db st1) second Hseq1) as (Hf2 & _ & Hnew2 & _ & Hfp2 & _ & Hseq2).
  change (sequence (db st1)) with (S j) in Hf2, Hnew2, Hfp2.
  assert (Hct : get_for_model (cls o) = content_type self).
  { rewrite Hcls. apply get_for_model_class. }
  assert (Hi : i <> j).
  { destruct Hp as (_ & Hrow & _). destruct Hseq as [Hlt _].
    assert (is_Some (problems (db st) !! i)) as Hsome by eauto.
    apply Hlt in Hsome. unfold j. lia. }
  assert (Hi' : i <> S j).
  { destruct Hp as (_ & Hrow & _). destruct Hseq as [Hlt _].
    assert (is_Some (problems (db st) !! i)) as Hsome by eauto.
    apply Hlt in Hsome. unfold j. lia. }
  assert (Hrows : forall t, row_of (duplicate_of o t j)
                            = {| row_document := t;
                                 row_content_type := content_type self;
                                 row_text := text self;
                                 row_number_of_subproblems := number_of_subproblems self |}).
  { intros t. unfold row_of. simpl. rewrite Hct.
    change (text o) with (row_text (row_of o)).
    change (number_of_subproblems o) with (row_number_of_subproblems (row_of o)).
    now rewrite Hro. }
  set (st2 := {| heap := <[l' := second]> (heap st1);
                 db := inserted (db st1) second |}) in *.
  exists l', st1, st2, second. split; [exact Hc1|]. split; [exact Hc2|].
  split; [simpl; apply lookup_insert_eq|]. split; [reflexivity|].
  split; [reflexivity|]. split; [exact Hcls|].
  change (db st2) with (inserted (db st1) second). split.
  { rewrite (Hfp2 j) by lia. change (db st1) with (inserted (db st) first).
    rewrite Hnew. f_equal. apply Hrows. }
  split.
  { rewrite Hnew2. f_equal. unfold second, row_of. simpl. rewrite Hct.
    change (text o) with (row_text (row_of o)).
    change (number_of_subproblems o) with (row_number_of_subproblems (row_of o)).
    now rewrite Hro. }
  split.
  { rewrite (Hfp2 i Hi'). change (db st1) with (inserted (db st) first).
    rewrite (Hfp i Hi). now destruct Hp as (_ & Hrow & _). }
  split; [|exact Hseq2].
  change (problems (inserted (db st1) second))
    with (<[S j := row_of second]> (problems (db st1))).
  rewrite map_size_insert_None by exact Hf2.
  change (problems (db st1)) with (<[j := row_of first]> (problems (db st))).
  now rewrite map_size_insert_None by exact Hf.
Qed.
End StoreMore.

(** ** The content types a foreign key may refer to *)



(** Property X9 on the [Dice] problem, saved from its own class and read
    back through the instance of [Problem] itself that a view holds. *)
Lemma save_then_downcast_witness :
  exists st3,
    save 0 DemoStore.session = Some (Ok tt, DemoStore.session)
    /\ downcast 1 DemoStore.session = Some (Ok 3, st3)
    /\ heap st3 !! 3 = Some Demo.dice_problem.
Proof.
  assert (save 0 DemoStore.session = Some (Ok tt, DemoStore.session)) as Hrun
    by (vm_compute; reflexivity).
  destruct (save_then_downcast 0 DemoStore.session Demo.dice_problem DemoStore.session
              eq_refl Hrun) as (saved & i & Hsaved & Hi & _ & _ & _ & Hback).
  assert (saved = Demo.dice_problem) as -> by (now inversion Hsaved).
  subst i.
  destruct (Hback DemoStore.session 1 DemoStore.parent_handle eq_refl eq_refl eq_refl
              eq_refl eq_refl) as (st3 & Hd & Ho & _).
  exists st3. split; [exact Hrun|]. split; [exact Hd | exact Ho].
Defined.

(** Property X10 on the instance of [Problem] itself that has no key yet,
    and on a [Dice] problem that brings the key 5 when the next key to hand
    out is 3. *)
Lemma save_twice_witness :
  (exists st1,
      save 2 DemoStore.session = Some (Ok tt, st1)
      /\ save 2 st1 = Some (Ok tt, st1)
      /\ sequence (db st1) = 4)
  /\ (exists st1,
        save 0 {| heap := {[0 := set_id (Some 5) Demo.dice_problem]};
                  db := DemoStore.tables |} = Some (Ok tt, st1)
        /\ save 0 st1 = Some (Ok tt, st1)
        /\ sequence (db st1) = 6).
Proof.
  split.
  - pose proof (save_run 2 DemoStore.session DemoStore.unsaved_base eq_refl) as Hrun.
    destruct (save_twice 2 DemoStore.session DemoStore.unsaved_base _ eq_refl Hrun)
      as (Hagain & _ & _).
    eexists. split; [exact Hrun|]. split; [exact Hagain | reflexivity].
  - set (st0 := {| heap := {[0 := set_id (Some 5) Demo.dice_problem]};
                   db := DemoStore.tables |}).
    pose proof (save_run 0 st0 (set_id (Some 5) Demo.dice_problem) eq_refl) as Hrun.
    destruct (save_twice 0 st0 (set_id (Some 5) Demo.dice_problem) _ eq_refl Hrun)
      as (Hagain & _ & _).
    eexists. split; [exact Hrun|]. split; [exact Hagain | reflexivity].
Defined.

(** Property X11 on the [Dice] problem. *)
Lemma clean_then_save_witness :
  clean 0 DemoStore.session = Some (Ok tt, DemoStore.session)
  /\ SubclassModel "Dice" <> ProblemModel
  /\ exists r,
       save 0 DemoStore.session = Some (Ok tt, DemoStore.session)
       /\ problems (db DemoStore.session) !! 1 = Some r
       /\ row_content_type r = get_for_model (SubclassModel "Dice")
       /\ row_text r = None.
Proof.
  assert (clean 0 DemoStore.session = Some (Ok tt, DemoStore.session)) as Hrun
    by (vm_compute; reflexivity).
  assert (save 0 DemoStore.session = Some (Ok tt, DemoStore.session)) as Hsave
    by (vm_compute; reflexivity).
  destruct (clean_then_save 0 DemoStore.session Demo.dice_problem DemoStore.session
              eq_refl Hrun) as (Hagain & Hsub & _ & Hrow).
  destruct (Hrow DemoStore.session Hsave) as (r & Hr & Hct & Ht & _).
  split; [exact Hagain|]. split; [exact Hsub|].
  exists r. split; [exact Hsave|]. split; [exact Hr|]. split; [exact Hct | exact Ht].
Defined.

(** Property X12 on the instance of [Problem] itself that has no key: its
    content type names the class [Dice], and there is no row to fetch. *)
Lemma downcast_reads_only_witness :
  downcast 2 DemoStore.session = Some (Raise DoesNotExist, DemoStore.session).
Proof.
  destruct (downcast_reads_only 2 DemoStore.session DemoStore.unsaved_base eq_refl)
    as (res & st' & Hrun & _ & _ & Hres).
  destruct res as [l'|e].
  - exfalso. destruct Hres as (o & _ & _ & Hid & _).
    assert (downcast 2 DemoStore.session = Some (Raise DoesNotExist, DemoStore.session))
      as Hc by (vm_compute; reflexivity).
    rewrite Hc in Hrun. discriminate.
  - destruct Hres as (-> & _ & -> & _). exact Hrun.
Defined.

(** Property X13 on the [Dice] problem, held through the class [Problem]. *)
Lemma downcast_idempotent_witness :
  exists l' st' o,
    downcast 1 DemoStore.session = Some (Ok l', st')
    /\ heap st' !! l' = Some o
    /\ cls o = model_class (content_type o)
    /\ persisted (db st') o 1
    /\ row_of o = row_of DemoStore.parent_handle
    /\ downcast l' st' = Some (Ok l', st').
Proof.
  apply (downcast_idempotent 1 DemoStore.session DemoStore.parent_handle 1 eq_refl).
  split; [reflexivity|]. split; [reflexivity|]. simpl.
  split; [eexists; reflexivity | discriminate].
Defined.

(** Property X14 on the [Dice] problem, copied into the documents 7 and
    8. *)
Lemma copy_of_copy_witness :
  exists l' st1 st2 second,
    copy 0 7 DemoStore.session = Some (Ok l', st1)
    /\ copy l' 8 st1 = Some (Ok l', st2)
    /\ heap st2 !! l' = Some second
    /\ id second = Some 4
    /\ document second = 8
    /\ size (problems (db st2)) = S (S (size (problems DemoStore.tables))).
Proof.
  destruct (copy_of_copy 0 7 8 DemoStore.session Demo.dice_problem 1) as
    (l' & st1 & st2 & second & H1 & H2 & H3 & H4 & H5 & _ & _ & _ & _ & H6 & _).
  - reflexivity.
  - split; [reflexivity|]. split; [reflexivity|]. simpl.
    split; [eexists; reflexivity | reflexivity].
  - exact tables_sequence_ahead.
  - exists l', st1, st2, second. repeat split; assumption.
Defined.

